(** * any-llm: the provider client factory and the batch dispatch contract

    Shallow embedding of [any_llm/client_factory.py] (the functions
    [get_default_mode], [get_api_key], [from_any] and [get_chat_urls]), of
    the prompt builder of [examples/openai_chat_pipeline.py] and of the
    dispatch contract that this example calls.

    Python dictionaries are finite maps ([gmap]); [os.environ] is a finite
    map from variable names to values; a raised exception is the [Raise]
    branch of the [result] type.  The vendor SDK constructors ([OpenAI],
    [Groq], ...) and the [instructor.from_*] wrappers are foreign code: a
    call to one of them is recorded with the class called and the
    arguments passed to it, exactly as [from_any] writes them, and what
    the call does, return or raise, is given by a vendor layer, over
    which the statements about the outcome of [from_any] quantify. *)

From stdpp Require Import base option countable strings pretty list
  list_numbers gmap fin_maps.
From Stdlib Require Import ZArith Permutation.

Open Scope string_scope.
Open Scope list_scope.

(** ** Exceptions and results *)

(** The enumeration [Provider] is imported by the module from [any_llm].
    Its members named in [client_factory.py] are the first seven
    constructors; [OTHER] stands for any member the module does not name. *)
Inductive Provider : Type :=
  | OPENAI
  | ANTHROPIC
  | COHERE
  | GROQ
  | MISTRAL
  | ANYSCALE
  | VOYAGE
  | OTHER (name : string).

(** [instructor.Mode]: the members the module names, and [OTHER_MODE] for
    the remaining members of the library's enumeration. *)
Inductive Mode : Type :=
  | TOOLS
  | ANTHROPIC_TOOLS
  | COHERE_TOOLS
  | MISTRAL_TOOLS
  | JSON_SCHEMA
  | OTHER_MODE (name : string).

(** The class of a raised exception, which is what an [except] clause of a
    caller discriminates on. *)
Inductive ExnClass : Type :=
  | AssertionError
  | ValueError
  | KeyError.

(** The raise sites of the module. *)
Inductive exn : Type :=
  | DefaultModeNotRecognized (p : Provider)   (* the assert of get_default_mode *)
  | ApiKeyNotRecognized (p : Provider)        (* the assert of get_api_key *)
  | UnsupportedProvider (p : Provider)        (* the final raise of from_any *)
  | MissingKey (k : string).                  (* a failed subscript d[k] *)

Definition exn_class (e : exn) : ExnClass :=
  match e with
  | DefaultModeNotRecognized _ => AssertionError
  | ApiKeyNotRecognized _ => AssertionError
  | UnsupportedProvider _ => ValueError
  | MissingKey _ => KeyError
  end.

Inductive result (A : Type) : Type :=
  | Return (a : A)
  | Raise (e : exn).
Arguments Return {A} a.
Arguments Raise {A} e.

#[global] Instance result_bind : MBind result := λ A B f r,
  match r with
  | Return a => f a
  | Raise e => Raise e
  end.

Definition raises {A} (r : result A) (c : ExnClass) : Prop :=
  ∃ e, r = Raise e ∧ exn_class e = c.

Definition returns {A} (r : result A) : Prop := ∃ a, r = Return a.

(** ** Decidable equality and countability of the key types *)

#[global] Instance Provider_eq_dec : EqDecision Provider.
Proof. solve_decision. Defined.

#[global] Instance Mode_eq_dec : EqDecision Mode.
Proof. solve_decision. Defined.

#[global] Instance ExnClass_eq_dec : EqDecision ExnClass.
Proof. solve_decision. Defined.

Definition Provider_code (p : Provider) : nat + string :=
  match p with
  | OPENAI => inl 0
  | ANTHROPIC => inl 1
  | COHERE => inl 2
  | GROQ => inl 3
  | MISTRAL => inl 4
  | ANYSCALE => inl 5
  | VOYAGE => inl 6
  | OTHER s => inr s
  end.

Definition Provider_decode (c : nat + string) : Provider :=
  match c with
  | inl 0 => OPENAI
  | inl 1 => ANTHROPIC
  | inl 2 => COHERE
  | inl 3 => GROQ
  | inl 4 => MISTRAL
  | inl 5 => ANYSCALE
  | inl _ => VOYAGE
  | inr s => OTHER s
  end.

#[global] Instance Provider_countable : Countable Provider.
Proof.
  apply (inj_countable' Provider_code Provider_decode).
  intros []; reflexivity.
Defined.

(** ** The environment *)

(** [os.getenv(name)]: the value of the variable, or [None]. *)
Definition getenv (environ : gmap string string) (name : string) : option string :=
  environ !! name.

(** ** get_default_mode *)

Definition org_to_mode : gmap Provider Mode :=
  list_to_map
    [ (OPENAI, TOOLS);
      (ANTHROPIC, ANTHROPIC_TOOLS);
      (COHERE, COHERE_TOOLS);
      (GROQ, TOOLS);
      (MISTRAL, MISTRAL_TOOLS);
      (ANYSCALE, JSON_SCHEMA) ].

Definition get_default_mode (provider : Provider) : result Mode :=
  match org_to_mode !! provider with
  | None => Raise (DefaultModeNotRecognized provider)
  | Some m => Return m
  end.

(** ** get_api_key *)

Definition model_to_api_key (environ : gmap string string)
  : gmap Provider (option string) :=
  list_to_map
    [ (OPENAI, getenv environ "OPENAI_API_KEY");
      (ANTHROPIC, getenv environ "ANTHROPIC_API_KEY");
      (ANYSCALE, getenv environ "ANYSCALE_API_KEY");
      (COHERE, getenv environ "COHERE_API_KEY");
      (VOYAGE, getenv environ "VOYAGE_API_KEY");
      (GROQ, getenv environ "GROQ_API_KEY");
      (MISTRAL, getenv environ "MISTRAL_API_KEY") ].

Definition get_api_key (environ : gmap string string) (provider : Provider)
  : result (option string) :=
  match model_to_api_key environ !! provider with
  | None => Raise (ApiKeyNotRecognized provider)
  | Some k => Return k
  end.

(** ** The foreign constructors, as recorded calls *)

(** A keyword argument of a call: left out, or passed with a value. *)
Inductive Arg (A : Type) : Type :=
  | Omitted
  | Passed (a : A).
Arguments Omitted {A}.
Arguments Passed {A} a.

Inductive TransportClass : Type :=
  | OpenAI
  | AsyncOpenAI
  | Anthropic
  | AsyncAnthropic
  | cohere_Client
  | cohere_AsyncClient
  | Groq
  | AsyncGroq
  | MistralClient
  | MistralAsyncClient.

(** A transport object: the class instantiated and the keyword arguments
    of the constructor call.  [api_key] holds a Python value that may be
    [None], hence [Arg (option string)]. *)
Record RawClient : Type := mkRawClient {
  transport_class : TransportClass;
  base_url : Arg string;
  api_key : Arg (option string)
}.

Definition is_async_class (c : TransportClass) : bool :=
  match c with
  | AsyncOpenAI | AsyncAnthropic | cohere_AsyncClient | AsyncGroq
  | MistralAsyncClient => true
  | _ => false
  end.

Inductive Wrapper : Type :=
  | from_openai
  | from_anthropic
  | from_cohere
  | from_groq.

(** What the wrapper receives of the transport: the object itself as
    first argument, or its [chat] attribute as keyword [create]. *)
Inductive ClientArg : Type :=
  | Client (c : RawClient)
  | CreateChat (c : RawClient).

(** The value [from_any] returns: the call [instructor.from_*(...)]. *)
Record ClientHandle : Type := mkHandle {
  wrapper : Wrapper;
  client : ClientArg;
  max_tokens : Arg Z;
  model : Arg string;
  mode : Mode
}.

Definition transport (h : ClientHandle) : RawClient :=
  match client h with
  | Client c => c
  | CreateChat c => c
  end.

#[global] Instance Arg_eq_dec {A} `{EqDecision A} : EqDecision (Arg A).
Proof. solve_decision. Defined.

#[global] Instance TransportClass_eq_dec : EqDecision TransportClass.
Proof. solve_decision. Defined.

#[global] Instance RawClient_eq_dec : EqDecision RawClient.
Proof. solve_decision. Defined.

#[global] Instance Wrapper_eq_dec : EqDecision Wrapper.
Proof. solve_decision. Defined.

#[global] Instance ClientArg_eq_dec : EqDecision ClientArg.
Proof. solve_decision. Defined.

#[global] Instance ClientHandle_eq_dec : EqDecision ClientHandle.
Proof. solve_decision. Defined.

(** ** from_any

    [from_any] below is the function up to the calls it makes into the
    vendor libraries: it raises the errors that are the module's own, all
    of which precede the first vendor call, and otherwise gives the two
    vendor calls of the provider's branch, the constructor of the
    transport and the [instructor] wrapper, with the arguments the branch
    passes.  What these calls do is not the module's; [from_any_run],
    further down, executes them against a vendor layer. *)

Definition anyscale_base_url : string := "https://api.endpoints.anyscale.com/v1".

Definition from_any (environ : gmap string string)
    (provider : Provider) (model_name : string)
    (async_client : bool) (mode : option Mode) : result ClientHandle :=
  api_key ← get_api_key environ provider;
  mode ← match mode with
         | None => get_default_mode provider
         | Some m => Return m
         end;
  match provider with
  | OPENAI =>
      let raw_client :=
        if async_client then mkRawClient AsyncOpenAI Omitted Omitted
        else mkRawClient OpenAI Omitted Omitted in
      Return (mkHandle from_openai (Client raw_client) Omitted Omitted mode)
  | ANTHROPIC =>
      let raw_client :=
        if async_client then mkRawClient AsyncAnthropic Omitted Omitted
        else mkRawClient Anthropic Omitted Omitted in
      Return (mkHandle from_anthropic (Client raw_client) Omitted Omitted mode)
  | COHERE =>
      let raw_client :=
        if async_client then mkRawClient cohere_AsyncClient Omitted Omitted
        else mkRawClient cohere_Client Omitted Omitted in
      Return (mkHandle from_cohere (Client raw_client)
                (Passed 0%Z) (Passed model_name) mode)
  | GROQ =>
      let raw_client :=
        if async_client then mkRawClient AsyncGroq Omitted (Passed api_key)
        else mkRawClient Groq Omitted (Passed api_key) in
      Return (mkHandle from_groq (Client raw_client) Omitted Omitted mode)
  | MISTRAL =>
      let raw_client :=
        if async_client then mkRawClient MistralAsyncClient Omitted Omitted
        else mkRawClient MistralClient Omitted Omitted in
      Return (mkHandle from_openai (CreateChat raw_client) Omitted Omitted mode)
  | ANYSCALE =>
      let raw_client :=
        if async_client
        then mkRawClient AsyncOpenAI (Passed anyscale_base_url) (Passed api_key)
        else mkRawClient OpenAI (Passed anyscale_base_url) (Passed api_key) in
      Return (mkHandle from_openai (Client raw_client) Omitted Omitted mode)
  | _ => Raise (UnsupportedProvider provider)
  end.

(** ** The vendor layer *)

(** What a call into a vendor library does: it returns a value, or it
    raises an exception of the library, given by the name of its class. *)
Inductive foreign (A : Type) : Type :=
  | Returned (a : A)
  | Threw (exception : string).
Arguments Returned {A} a.
Arguments Threw {A} exception.

(** The vendor libraries, for transport objects of type [T] and
    instructor objects of type [I]: the constructor of a transport class,
    called with keyword arguments in an environment that it may read
    itself; the key that a transport object holds; the wrapper, called
    with the arguments of a [ClientHandle] on a transport object. *)
Record Vendor (T I : Type) : Type := mkVendor {
  construct : gmap string string → RawClient → foreign T;
  credential : T → option string;
  wrap : ClientHandle → T → foreign I
}.
Arguments construct {T I} v environ c.
Arguments credential {T I} v t.
Arguments wrap {T I} v h t.

(** How a call of [from_any] ends: it returns the instructor object [i]
    built over the transport [t], it raises an error of the module, or an
    exception of the constructor or of the wrapper passes through it. *)
Inductive outcome (T I : Type) : Type :=
  | Built (t : T) (i : I)
  | Raised (e : exn)
  | ConstructorThrew (c : RawClient) (exception : string)
  | WrapperThrew (h : ClientHandle) (t : T) (exception : string).
Arguments Built {T I} t i.
Arguments Raised {T I} e.
Arguments ConstructorThrew {T I} c exception.
Arguments WrapperThrew {T I} h t exception.

(** The two vendor calls of a branch, in the order of the source: the
    constructor, then the wrapper on the object constructed. *)
Definition issue {T I} (v : Vendor T I) (environ : gmap string string)
    (h : ClientHandle) : outcome T I :=
  match construct v environ (transport h) with
  | Threw x => ConstructorThrew (transport h) x
  | Returned t =>
      match wrap v h t with
      | Threw x => WrapperThrew h t x
      | Returned i => Built t i
      end
  end.

(** [from_any], executed against a vendor layer. *)
Definition from_any_run {T I} (v : Vendor T I) (environ : gmap string string)
    (provider : Provider) (model_name : string)
    (async_client : bool) (mode : option Mode) : outcome T I :=
  match from_any environ provider model_name async_client mode with
  | Raise e => Raised e
  | Return h => issue v environ h
  end.

(** The wrapper [from_openai] does not do without its first argument,
    the client: called with [create] alone, it raises. *)
Definition client_required {T I} (v : Vendor T I) : Prop :=
  ∀ h t c, wrapper h = from_openai → client h = CreateChat c →
           ∃ x, wrap v h t = Threw x.

(** *** A vendor layer to run examples against

    It has the behaviour of the imported libraries that the examples of
    this file rest on: a constructor called without a key, or with
    [api_key=None], falls back on the variable of its own library; the
    constructors other than Anthropic's raise when they find no key;
    [from_openai] raises without its client argument; each wrapper asserts
    that it knows the mode. *)

Record SampleTransport : Type := mkTransport {
  constructed_as : RawClient;
  held_key : option string
}.

Record SampleInstructor : Type := mkInstructor {
  wrapped_as : ClientHandle;
  over : SampleTransport
}.

Definition default_variable (c : TransportClass) : string :=
  match c with
  | OpenAI | AsyncOpenAI => "OPENAI_API_KEY"
  | Anthropic | AsyncAnthropic => "ANTHROPIC_API_KEY"
  | cohere_Client | cohere_AsyncClient => "CO_API_KEY"
  | Groq | AsyncGroq => "GROQ_API_KEY"
  | MistralClient | MistralAsyncClient => "MISTRAL_API_KEY"
  end.

Definition keyless_exception (c : TransportClass) : option string :=
  match c with
  | OpenAI | AsyncOpenAI => Some "OpenAIError"
  | Anthropic | AsyncAnthropic => None
  | cohere_Client | cohere_AsyncClient => Some "ApiError"
  | Groq | AsyncGroq => Some "GroqError"
  | MistralClient | MistralAsyncClient => Some "MistralException"
  end.

Definition sample_construct (environ : gmap string string) (c : RawClient)
  : foreign SampleTransport :=
  let key := match api_key c with
             | Passed (Some k) => Some k
             | _ => getenv environ (default_variable (transport_class c))
             end in
  match key, keyless_exception (transport_class c) with
  | None, Some x => Threw x
  | _, _ => Returned (mkTransport c key)
  end.

Definition mode_known (w : Wrapper) (m : Mode) : bool :=
  match w with
  | from_openai =>
      match m with
      | ANTHROPIC_TOOLS | COHERE_TOOLS => false
      | _ => true
      end
  | from_anthropic =>
      bool_decide (m = ANTHROPIC_TOOLS ∨ m = OTHER_MODE "ANTHROPIC_JSON")
  | from_cohere => bool_decide (m = COHERE_TOOLS)
  | from_groq => bool_decide (m = TOOLS ∨ m = OTHER_MODE "JSON")
  end.

Definition sample_wrap (h : ClientHandle) (t : SampleTransport)
  : foreign SampleInstructor :=
  match wrapper h, client h with
  | from_openai, CreateChat _ => Threw "TypeError"
  | w, _ =>
      if mode_known w (mode h) then Returned (mkInstructor h t)
      else Threw "AssertionError"
  end.

Definition sample_vendor : Vendor SampleTransport SampleInstructor :=
  mkVendor _ _ sample_construct held_key sample_wrap.

(** ** get_chat_urls *)

(** An entry of [model_mapping], the table the module imports from
    [any_llm]; the function reads its [org] attribute only, and uses it
    as a key of a dictionary whose keys are strings. *)
Record ModelInfo : Type := mkModelInfo { org : string }.

Definition model_to_chat_url : gmap string string :=
  list_to_map
    [ ("openai", "https://api.openai.com/v1/chat/completions");
      ("anyscale", "https://api.endpoints.anyscale.com/v1/chat/completions");
      ("anthropic", "https://api.anthropic.com/v1/messages");
      ("cohere", "https://api.cohere.ai/v1/chat/completions");
      ("voyage", "https://api.voyageai.com/v1/embeddings") ].

(** [d[k]] on a dictionary: the value, or [KeyError(k)]. *)
Definition subscript {V} (d : gmap string V) (k : string) : result V :=
  match d !! k with
  | Some v => Return v
  | None => Raise (MissingKey k)
  end.

Definition get_chat_urls (model_mapping : gmap string ModelInfo)
    (model_name : string) : result string :=
  info ← subscript model_mapping model_name;
  let org := org info in
  subscript model_to_chat_url org.

(** ** Vocabulary of the statements *)

(** The providers that have a construction branch in [from_any]. *)
Definition supported : list Provider :=
  [OPENAI; ANTHROPIC; COHERE; GROQ; MISTRAL; ANYSCALE].

(** The environment variable [get_api_key] reads for a provider. *)
Definition credential_variable (p : Provider) : option string :=
  match p with
  | OPENAI => Some "OPENAI_API_KEY"
  | ANTHROPIC => Some "ANTHROPIC_API_KEY"
  | ANYSCALE => Some "ANYSCALE_API_KEY"
  | COHERE => Some "COHERE_API_KEY"
  | VOYAGE => Some "VOYAGE_API_KEY"
  | GROQ => Some "GROQ_API_KEY"
  | MISTRAL => Some "MISTRAL_API_KEY"
  | OTHER _ => None
  end.

(** The organizations [get_chat_urls] has a URL for. *)
Definition chat_url_orgs : list string :=
  ["openai"; "anyscale"; "anthropic"; "cohere"; "voyage"].

(** ** The batch dispatcher

    [process_api_requests_from_file] is imported from [any_llm] by
    [examples/openai_chat_pipeline.py], which only calls it; the
    definitions of this part follow the specification's description of the
    request ledger (4.3) and of the dispatcher (4.5). *)

(** Modelled from the spec: one line of the pending-request file, which
    is missing with the ledger module: a self-describing record with a
    target model name and a payload, or a line that does not parse. *)
Inductive Line : Type :=
  | Wellformed (model_name payload : string)
  | Malformed (text : string).

(** Modelled from the spec: the RequestRecord of the data model, a type
    of the missing dispatcher module. *)
Record RequestRecord : Type := mkRequest {
  seq_index : nat;
  target_model : string;
  req_provider : Provider;
  req_payload : string;
  attempt_count : nat;
  max_attempts : nat
}.

(** Modelled from the spec: the OutcomeRecord of the data model, a type
    of the missing dispatcher module; [out_body] is the response payload
    or the error description. *)
Record OutcomeRecord : Type := mkOutcome {
  out_index : nat;
  out_success : bool;
  out_body : string;
  attempts_used : nat
}.

(** Modelled from the spec: the classes of result of one issued request
    (step 4 of the algorithm of the missing dispatcher). *)
Inductive CallResult : Type :=
  | Response (payload : string)
  | Transient (err : string)
  | NonRetryable (err : string).

(** Modelled from the spec: the per-record states of the state machine
    of the missing dispatcher. *)
Inductive Phase : Type :=
  | PENDING
  | IN_FLIGHT
  | RETRYING
  | SUCCEEDED
  | FAILED.

(** Modelled from the spec: [load_pending] of the missing ledger module,
    one record per line that parses, numbered by its position in the
    file, on its first attempt; a malformed line yields no record. *)
Fixpoint load_pending_from (i : nat) (lines : list Line)
    (provider : Provider) (max_attempts : nat) : list RequestRecord :=
  match lines with
  | [] => []
  | Wellformed m p :: rest =>
      mkRequest i m provider p 1 max_attempts
        :: load_pending_from (S i) rest provider max_attempts
  | Malformed _ :: rest => load_pending_from (S i) rest provider max_attempts
  end.

(** Modelled from the spec: [load_pending] of the missing ledger module,
    reading the file from its first line. *)
Definition load_pending (lines : list Line) (provider : Provider)
    (max_attempts : nat) : list RequestRecord :=
  load_pending_from 0 lines provider max_attempts.

(** Modelled from the spec: the classification of a call result by the
    missing dispatcher: success is terminal, a transient failure is
    retried while the attempt count has not reached [max_attempts], any
    other failure is terminal. *)
Definition classify (r : RequestRecord) (res : CallResult) : Phase :=
  match res with
  | Response _ => SUCCEEDED
  | Transient _ =>
      if (attempt_count r <? max_attempts r)%nat then RETRYING else FAILED
  | NonRetryable _ => FAILED
  end.

(** Modelled from the spec: the outcome the missing dispatcher appends
    when a record reaches a terminal state. *)
Definition outcome_of (r : RequestRecord) (res : CallResult) : OutcomeRecord :=
  match res with
  | Response p => mkOutcome (seq_index r) true p (attempt_count r)
  | Transient e => mkOutcome (seq_index r) false e (attempt_count r)
  | NonRetryable e => mkOutcome (seq_index r) false e (attempt_count r)
  end.

(** Modelled from the spec: the attempt-count increment of the missing
    dispatcher on the transition from RETRYING back to IN_FLIGHT. *)
Definition next_attempt (r : RequestRecord) : RequestRecord :=
  mkRequest (seq_index r) (target_model r) (req_provider r) (req_payload r)
    (S (attempt_count r)) (max_attempts r).

(** Modelled from the spec: the attempts a record of the missing
    dispatcher may still make after the current one. *)
Definition attempts_left (r : RequestRecord) : nat :=
  (max_attempts r - attempt_count r)%nat.

(** Modelled from the spec: the state of a run of the missing dispatcher:
    the records not yet resolved, each with its state, and the contents of
    the output file. *)
Record Dispatch : Type := mkDispatch {
  in_progress : list (RequestRecord * Phase);
  ledger : list OutcomeRecord
}.

(** Modelled from the spec: the state in which a run of the missing
    dispatcher starts: every loaded record PENDING, the output file with
    the content it had before the run. *)
Definition start (records : list RequestRecord) (saved : list OutcomeRecord)
  : Dispatch :=
  mkDispatch ((λ r, (r, PENDING)) <$> records) saved.

(** Modelled from the spec: a line of the request file that parses, as
    the missing ledger module decides it. *)
Definition wellformed (ln : Line) : bool :=
  match ln with
  | Wellformed _ _ => true
  | Malformed _ => false
  end.

Section DispatcherModel.

(** The simulated provider: the result of the call issued for the
    record of a sequence index at an attempt number. *)
Variable call : nat → nat → CallResult.

(** Modelled from the spec: one transition of one dispatch unit of the
    missing dispatcher.  Units run concurrently: any unit may move
    next.  The rate limiter's grant is the move from PENDING to
    IN_FLIGHT; the backoff delay is the move from RETRYING to
    IN_FLIGHT. *)
Inductive step : Dispatch → Dispatch → Prop :=
  | step_grant l1 r l2 out :
      step (mkDispatch (l1 ++ (r, PENDING) :: l2) out)
           (mkDispatch (l1 ++ (r, IN_FLIGHT) :: l2) out)
  | step_retry l1 r l2 out :
      classify r (call (seq_index r) (attempt_count r)) = RETRYING →
      step (mkDispatch (l1 ++ (r, IN_FLIGHT) :: l2) out)
           (mkDispatch (l1 ++ (r, RETRYING) :: l2) out)
  | step_backoff l1 r l2 out :
      step (mkDispatch (l1 ++ (r, RETRYING) :: l2) out)
           (mkDispatch (l1 ++ (next_attempt r, IN_FLIGHT) :: l2) out)
  | step_terminal l1 r l2 out :
      classify r (call (seq_index r) (attempt_count r)) ≠ RETRYING →
      step (mkDispatch (l1 ++ (r, IN_FLIGHT) :: l2) out)
           (mkDispatch (l1 ++ l2)
              (out ++ [outcome_of r (call (seq_index r) (attempt_count r))])).

(** Modelled from the spec: the attempts of one record of the missing
    dispatcher, run to the terminal outcome; [remaining] is the number
    of attempts left after the current one. *)
Fixpoint resolve (remaining : nat) (r : RequestRecord) : OutcomeRecord :=
  match call (seq_index r) (attempt_count r) with
  | Transient e =>
      match remaining with
      | 0 => outcome_of r (Transient e)
      | S k => resolve k (next_attempt r)
      end
  | res => outcome_of r res
  end.

(** Modelled from the spec: [process_api_requests_from_file], which is
    missing: the records of the request file are loaded and resolved,
    and the outcomes are appended to the output file, here one record
    after the other.  The files are given by their contents. *)
Definition process_api_requests_from_file
    (requests : list Line) (saved : list OutcomeRecord)
    (provider : Provider) (max_attempts : nat) : list OutcomeRecord :=
  saved ++ ((λ r, resolve (attempts_left r) r)
              <$> load_pending requests provider max_attempts).

End DispatcherModel.

(** Modelled from the spec: the outcome that a unit of the missing
    dispatcher reaches from the state it is in. *)
Definition finish (call : nat → nat → CallResult)
    (u : RequestRecord * Phase) : OutcomeRecord :=
  match u.2 with
  | RETRYING => resolve call (attempts_left (next_attempt u.1)) (next_attempt u.1)
  | _ => resolve call (attempts_left u.1) u.1
  end.

(** The sequence indices of the records a state still works on. *)
Definition unresolved (s : Dispatch) : list nat :=
  (λ u, seq_index u.1) <$> in_progress s.

(** Every index is either still worked on or has one outcome among the
    records appended to the file since the start. *)
Definition accounted (saved : list OutcomeRecord) (indices : list nat)
    (s : Dispatch) : Prop :=
  ∃ new, ledger s = saved ++ new ∧
         unresolved s ++ (out_index <$> new) ≡ₚ indices.

(** A unit that has not reached a terminal state. *)
Definition live (u : RequestRecord * Phase) : Prop :=
  u.2 = PENDING ∨ u.2 = IN_FLIGHT ∨ u.2 = RETRYING.

(** A request file of two records, in the shape of the prompts that
    [create_chat_prompts] builds. *)
Definition sample_requests : list Line :=
  [ Wellformed "gpt-3.5-turbo" "fact about 1";
    Wellformed "gpt-3.5-turbo" "fact about 2" ].

(** A simulated provider that answers the first record at once and the second one
    at its third attempt. *)
Definition sample_call (index attempt : nat) : CallResult :=
  if (index =? 0)%nat then Response "one"
  else if (attempt <? 3)%nat then Transient "timeout" else Response "two".

(** ** create_chat_prompts

    The prompt builder of [examples/openai_chat_pipeline.py]. *)

Module Pipeline.

(** One entry of the [messages] list of a prompt. *)
Record Message : Type := mkMessage {
  role : string;
  content : string
}.

(** A float literal of the source, kept as it is written: the digits and
    the power of ten. *)
Record FloatLiteral : Type := mkFloat {
  digits : Z;
  exponent10 : Z
}.

(** The dictionary that [create_chat_prompts] builds for one prompt; its
    keys are fixed, [metadata] is a dictionary of its own. *)
Record Prompt : Type := mkPrompt {
  model : string;
  messages : list Message;
  temperature : FloatLiteral;
  max_tokens : Z;
  metadata : gmap string Z
}.

(** The f-string of the user message; [pretty] is the decimal notation
    of an integer, as [str] gives it. *)
Definition user_content (i : Z) : string :=
  "Tell me an interesting fact about the number " +:+ pretty (i + 1)%Z +:+ ".".

(** The body of the loop, for the loop variable [i]. *)
Definition prompt (i : Z) : Prompt :=
  mkPrompt "gpt-3.5-turbo"
    [ mkMessage "system" "You are a helpful assistant.";
      mkMessage "user" (user_content i) ]
    (mkFloat 7 (-1))
    1000
    {[ "prompt_id" := i ]}.

(** [range(num_prompts)] is [seqZ 0 num_prompts], empty when the bound is
    not positive; the loop appends one prompt per element. *)
Definition create_chat_prompts (num_prompts : Z) : list Prompt :=
  prompt <$> seqZ 0 num_prompts.

(** [prompt["metadata"]["prompt_id"]]. *)
Definition prompt_id (p : Prompt) : option Z := metadata p !! "prompt_id".

(** The content of the message of role user, if there is one. *)
Definition user_question (p : Prompt) : option string :=
  (λ x, content x.2) <$> list_find (λ m, role m = "user") (messages p).

End Pipeline.

(** * Properties *)

Example from_any_groq :
  from_any {[ "GROQ_API_KEY" := "gsk" ]} GROQ "llama3" false None
  = Return (mkHandle from_groq
              (Client (mkRawClient Groq Omitted (Passed (Some "gsk"))))
              Omitted Omitted TOOLS).
Proof. vm_compute. reflexivity. Qed.

(** ** Lookups in the two provider tables *)

Ltac table_lookup :=
  repeat (rewrite lookup_insert_ne by discriminate);
  first [ apply lookup_insert_eq | apply lookup_empty ].

Lemma model_to_api_key_lookup environ p :
  model_to_api_key environ !! p = getenv environ <$> credential_variable p.
Proof. destruct p; cbn -[getenv]; table_lookup. Qed.

Lemma org_to_mode_supported p :
  p ∈ supported ↔ is_Some (org_to_mode !! p).
Proof.
  unfold supported. split.
  - intros Hp. repeat (apply elem_of_cons in Hp as [->|Hp]);
      [by eexists; vm_compute..|]. by apply elem_of_nil in Hp.
  - intros [m Hm]. destruct p; set_solver.
Qed.

Lemma get_api_key_recognized environ p v :
  credential_variable p = Some v →
  get_api_key environ p = Return (getenv environ v).
Proof.
  intros Hv. unfold get_api_key.
  by rewrite model_to_api_key_lookup, Hv.
Qed.

Lemma get_api_key_unrecognized environ p :
  credential_variable p = None →
  get_api_key environ p = Raise (ApiKeyNotRecognized p).
Proof.
  intros Hv. unfold get_api_key.
  by rewrite model_to_api_key_lookup, Hv.
Qed.

Lemma supported_credential_variable p :
  p ∈ supported → is_Some (credential_variable p).
Proof.
  unfold supported. intros Hp.
  repeat (apply elem_of_cons in Hp as [->|Hp]); [by eexists..|].
  by apply elem_of_nil in Hp.
Qed.

Lemma get_default_mode_supported p :
  p ∈ supported → ∃ m, org_to_mode !! p = Some m ∧ get_default_mode p = Return m.
Proof.
  intros [m Hm]%org_to_mode_supported. exists m. split; [done|].
  unfold get_default_mode. by rewrite Hm.
Qed.

(** The shape of [from_any] on a supported provider: the two table
    lookups succeed, and the provider's branch returns. *)
Lemma from_any_supported environ p model_name async_client md :
  p ∈ supported →
  ∃ h m, from_any environ p model_name async_client md = Return h ∧
         mode h = m ∧
         match md with
         | Some m' => m = m'
         | None => org_to_mode !! p = Some m
         end ∧
         is_async_class (transport_class (transport h)) = async_client.
Proof.
  intros Hp.
  destruct (supported_credential_variable p Hp) as [v Hv].
  destruct (get_default_mode_supported p Hp) as (m0 & Hm0 & Hdm).
  unfold from_any. rewrite (get_api_key_recognized _ _ _ Hv). cbn -[getenv].
  assert (∃ m, match md with None => get_default_mode p | Some m' => Return m' end
               = Return m ∧
               match md with Some m' => m = m' | None => org_to_mode !! p = Some m end)
    as (m & -> & Hm).
  { destruct md as [m'|]; [by exists m'|]. exists m0. by rewrite Hdm. }
  cbn -[getenv]. unfold supported in Hp.
  repeat (apply elem_of_cons in Hp as [->|Hp]);
    try (by apply elem_of_nil in Hp);
    destruct async_client; eexists _, m; (split; [reflexivity|]); done.
Qed.

Lemma from_any_unrecognized environ p model_name async_client md :
  credential_variable p = None →
  from_any environ p model_name async_client md = Raise (ApiKeyNotRecognized p).
Proof.
  intros Hp. unfold from_any.
  by rewrite (get_api_key_unrecognized _ _ Hp).
Qed.

Lemma get_default_mode_voyage :
  get_default_mode VOYAGE = Raise (DefaultModeNotRecognized VOYAGE).
Proof. reflexivity. Qed.

(** ** The calls that the factory issues *)

Lemma from_any_recognized_unsupported environ p model_name async_client md v :
  credential_variable p = Some v →
  p ∉ supported →
  from_any environ p model_name async_client md
  = match md with
    | None => Raise (DefaultModeNotRecognized p)
    | Some _ => Raise (UnsupportedProvider p)
    end.
Proof.
  intros Hv Hp. unfold from_any. rewrite (get_api_key_recognized _ _ _ Hv).
  destruct p; try (destruct Hp; unfold supported; by repeat constructor);
    try discriminate; by destruct md.
Qed.

Lemma from_any_returns_supported environ p model_name async_client md :
  returns (from_any environ p model_name async_client md) → p ∈ supported.
Proof.
  intros [h Hh]. destruct (decide (p ∈ supported)) as [|Hp]; [done|].
  destruct (credential_variable p) as [v|] eqn:Hv.
  - rewrite (from_any_recognized_unsupported _ _ _ _ _ _ Hv Hp) in Hh.
    by destruct md.
  - by rewrite (from_any_unrecognized _ _ _ _ _ Hv) in Hh.
Qed.

(** Case analysis on a call of [from_any] that returned. *)
Lemma from_any_return_inv environ p model_name async_client md h :
  from_any environ p model_name async_client md = Return h →
  ∃ k m, get_api_key environ p = Return k ∧
         h = match p with
             | OPENAI =>
                 mkHandle from_openai
                   (Client (mkRawClient (if async_client then AsyncOpenAI else OpenAI)
                              Omitted Omitted)) Omitted Omitted m
             | ANTHROPIC =>
                 mkHandle from_anthropic
                   (Client (mkRawClient
                              (if async_client then AsyncAnthropic else Anthropic)
                              Omitted Omitted)) Omitted Omitted m
             | COHERE =>
                 mkHandle from_cohere
                   (Client (mkRawClient
                              (if async_client then cohere_AsyncClient else cohere_Client)
                              Omitted Omitted)) (Passed 0%Z) (Passed model_name) m
             | GROQ =>
                 mkHandle from_groq
                   (Client (mkRawClient (if async_client then AsyncGroq else Groq)
                              Omitted (Passed k))) Omitted Omitted m
             | MISTRAL =>
                 mkHandle from_openai
                   (CreateChat (mkRawClient
                                  (if async_client then MistralAsyncClient
                                   else MistralClient)
                                  Omitted Omitted)) Omitted Omitted m
             | _ =>
                 mkHandle from_openai
                   (Client (mkRawClient (if async_client then AsyncOpenAI else OpenAI)
                              (Passed anyscale_base_url) (Passed k))) Omitted Omitted m
             end ∧
         p ∈ supported.
Proof.
  intros Hh.
  assert (Hp : p ∈ supported).
  { apply (from_any_returns_supported environ p model_name async_client md).
    by exists h. }
  revert Hh. unfold from_any.
  destruct (get_api_key environ p) as [k|e]; [|done]. cbn.
  destruct (match md with None => get_default_mode p | Some m => Return m end)
    as [m|e]; [|done]. cbn.
  intros Hh. exists k, m. split; [done|]. split; [|done].
  destruct p, async_client; try done; by injection Hh as <-.
Qed.

(** ** The factory against a vendor layer *)

Lemma from_any_run_issue {T I} (v : Vendor T I) environ p model_name
    async_client md h :
  from_any environ p model_name async_client md = Return h →
  from_any_run v environ p model_name async_client md = issue v environ h.
Proof. intros Hh. unfold from_any_run. by rewrite Hh. Qed.

Lemma issue_not_raised {T I} (v : Vendor T I) environ h e :
  issue v environ h ≠ Raised e.
Proof.
  unfold issue. destruct (construct v environ (transport h)) as [t|x]; [|done].
  by destruct (wrap v h t).
Qed.

Lemma issue_built {T I} (v : Vendor T I) environ h t i :
  issue v environ h = Built t i ↔
  construct v environ (transport h) = Returned t ∧ wrap v h t = Returned i.
Proof.
  unfold issue. split.
  - destruct (construct v environ (transport h)) as [t'|x]; [|done].
    destruct (wrap v h t') as [i'|x] eqn:Hw; [|done].
    intros [= <- <-]. by split.
  - intros [-> ->]. reflexivity.
Qed.

Lemma sample_vendor_client_required : client_required sample_vendor.
Proof.
  intros h t c Hw Hc. exists "TypeError". cbn. unfold sample_wrap.
  by rewrite Hw, Hc.
Qed.

(** C1, as the specification states it, does not hold: with an empty
    environment the ANTHROPIC call raises nothing.  The transport is
    constructed without a key, the constructor accepts that, and a
    handle is returned whose transport holds no key. *)
Lemma from_any_anthropic_without_credential :
  getenv ∅ "ANTHROPIC_API_KEY" = None ∧
  from_any_run sample_vendor ∅ ANTHROPIC "claude-3" false None
  = Built (mkTransport (mkRawClient Anthropic Omitted Omitted) None)
      (mkInstructor
         (mkHandle from_anthropic (Client (mkRawClient Anthropic Omitted Omitted))
            Omitted Omitted ANTHROPIC_TOOLS)
         (mkTransport (mkRawClient Anthropic Omitted Omitted) None)) ∧
  credential sample_vendor
    (mkTransport (mkRawClient Anthropic Omitted Omitted) None) = None.
Proof. repeat split; reflexivity. Qed.

(** C1, amended: when the credential variable of a provider is absent
    from the environment, [get_api_key] returns [None] and raises
    nothing, and for a supported provider [from_any] raises no error of
    its own either: it goes on to the vendor calls of the branch, with a
    transport constructed with [api_key=None] for GROQ and ANYSCALE and
    with no credential argument for OPENAI, ANTHROPIC, COHERE and
    MISTRAL.  How the call ends is what these vendor calls make of it. *)
Theorem from_any_absent_credential {T I} (v : Vendor T I) environ p
    model_name async_client md var :
  credential_variable p = Some var →
  getenv environ var = None →
  get_api_key environ p = Return None ∧
  (p ∈ supported →
   (∀ e, from_any_run v environ p model_name async_client md ≠ Raised e) ∧
   ∃ h, from_any_run v environ p model_name async_client md = issue v environ h ∧
        (p ∈ [GROQ; ANYSCALE] → api_key (transport h) = Passed None) ∧
        (p ∈ [OPENAI; ANTHROPIC; COHERE; MISTRAL] →
         api_key (transport h) = Omitted)).
Proof.
  intros Hv Habsent.
  assert (Hk : get_api_key environ p = Return None)
    by by rewrite (get_api_key_recognized _ _ _ Hv), Habsent.
  split; [exact Hk|]. intros Hp.
  destruct (from_any_supported environ p model_name async_client md Hp)
    as (h & _ & Hh & _).
  rewrite (from_any_run_issue v _ _ _ _ _ _ Hh).
  split; [intros e; apply issue_not_raised|].
  exists h. split; [done|].
  destruct (from_any_return_inv _ _ _ _ _ _ Hh) as (k & m & Hk' & -> & _).
  assert (k = None) as -> by congruence.
  split; intros Hin;
    repeat (apply elem_of_cons in Hin as [->|Hin]);
    try (by apply elem_of_nil in Hin); reflexivity.
Qed.

Lemma from_any_absent_credential_witness :
  credential_variable ANYSCALE = Some "ANYSCALE_API_KEY" ∧
  getenv {[ "OPENAI_API_KEY" := "sk-1" ]} "ANYSCALE_API_KEY" = None ∧
  get_api_key {[ "OPENAI_API_KEY" := "sk-1" ]} ANYSCALE = Return None.
Proof.
  split; [reflexivity|]. split; [reflexivity|].
  exact (proj1 (from_any_absent_credential sample_vendor
                  {[ "OPENAI_API_KEY" := "sk-1" ]} ANYSCALE "llama-2" true None
                  "ANYSCALE_API_KEY" eq_refl eq_refl)).
Defined.

(** C2 fails on the code at MISTRAL: in that branch the wrapper
    [from_openai] is called with [create] and without the client that
    it requires, so with the provider's credential present and no mode
    given the call does not return a handle: either the constructor
    raises, or the wrapper, called with the default mode, does. *)
Theorem from_any_mistral_default_mode_fails {T I} (v : Vendor T I) environ
    model_name async_client k :
  client_required v →
  getenv environ "MISTRAL_API_KEY" = Some k →
  (∀ t i, from_any_run v environ MISTRAL model_name async_client None
          ≠ Built t i) ∧
  ∃ h, from_any_run v environ MISTRAL model_name async_client None
       = issue v environ h ∧
       wrapper h = from_openai ∧
       client h = CreateChat (transport h) ∧
       api_key (transport h) = Omitted ∧
       org_to_mode !! MISTRAL = Some (mode h).
Proof.
  intros Hreq _.
  assert (Hh : ∃ h, from_any environ MISTRAL model_name async_client None
                    = Return h ∧ wrapper h = from_openai ∧
                    client h = CreateChat (transport h) ∧
                    api_key (transport h) = Omitted ∧
                    org_to_mode !! MISTRAL = Some (mode h)).
  { unfold from_any. rewrite (get_api_key_recognized _ MISTRAL _ eq_refl). cbn.
    destruct async_client; eexists; repeat split. }
  destruct Hh as (h & Hh & Hw & Hc & Hk & Hm).
  rewrite (from_any_run_issue v _ _ _ _ _ _ Hh). split; [|by exists h].
  intros t i [_ Hwrap]%issue_built.
  destruct (Hreq h t _ Hw Hc) as [x Hx]. congruence.
Qed.

Lemma from_any_mistral_default_mode_fails_witness :
  client_required sample_vendor ∧
  getenv {[ "MISTRAL_API_KEY" := "mk-1" ]} "MISTRAL_API_KEY" = Some "mk-1" ∧
  (∀ t i, from_any_run sample_vendor {[ "MISTRAL_API_KEY" := "mk-1" ]}
            MISTRAL "mistral-large" false None ≠ Built t i).
Proof.
  split; [exact sample_vendor_client_required|]. split; [reflexivity|].
  exact (proj1 (from_any_mistral_default_mode_fails sample_vendor
                  {[ "MISTRAL_API_KEY" := "mk-1" ]} "mistral-large" false "mk-1"
                  sample_vendor_client_required eq_refl)).
Defined.

Example from_any_run_mistral :
  from_any_run sample_vendor {[ "MISTRAL_API_KEY" := "mk-1" ]}
    MISTRAL "mistral-large" false None
  = WrapperThrew
      (mkHandle from_openai
         (CreateChat (mkRawClient MistralClient Omitted Omitted))
         Omitted Omitted MISTRAL_TOOLS)
      (mkTransport (mkRawClient MistralClient Omitted Omitted) (Some "mk-1"))
      "TypeError".
Proof. reflexivity. Qed.

(** C4, as the specification states it, does not hold: with the mode
    ANTHROPIC_TOOLS given, the OPENAI call builds no client; the wrapper
    is called with that mode and rejects it. *)
Lemma from_any_openai_mode_rejected :
  from_any_run sample_vendor {[ "OPENAI_API_KEY" := "sk-1" ]}
    OPENAI "gpt-4" false (Some ANTHROPIC_TOOLS)
  = WrapperThrew
      (mkHandle from_openai (Client (mkRawClient OpenAI Omitted Omitted))
         Omitted Omitted ANTHROPIC_TOOLS)
      (mkTransport (mkRawClient OpenAI Omitted Omitted) (Some "sk-1"))
      "AssertionError".
Proof. reflexivity. Qed.

(** C4, amended: for each supported provider and each mode, [from_any]
    with that mode given hands it to the wrapper as it is, and with no
    mode given hands over the provider's entry of [org_to_mode]; it
    checks nothing about the mode itself, so that a client is built
    exactly when the two vendor calls return, and then by a wrapper
    called with that mode. *)
Theorem from_any_mode_resolution {T I} (v : Vendor T I) environ p
    model_name async_client :
  p ∈ supported →
  (∀ m, ∃ h, from_any environ p model_name async_client (Some m) = Return h ∧
             mode h = m ∧
             from_any_run v environ p model_name async_client (Some m)
             = issue v environ h ∧
             ∀ t i, from_any_run v environ p model_name async_client (Some m)
                    = Built t i ↔
                    construct v environ (transport h) = Returned t ∧
                    wrap v h t = Returned i) ∧
  (∃ h, from_any environ p model_name async_client None = Return h ∧
        org_to_mode !! p = Some (mode h) ∧
        from_any_run v environ p model_name async_client None
        = issue v environ h ∧
        ∀ t i, from_any_run v environ p model_name async_client None
               = Built t i ↔
               construct v environ (transport h) = Returned t ∧
               wrap v h t = Returned i).
Proof.
  intros Hp. split.
  - intros m.
    destruct (from_any_supported environ p model_name async_client (Some m) Hp)
      as (h & m' & Hh & Hm & Heq & _).
    exists h. rewrite (from_any_run_issue v _ _ _ _ _ _ Hh).
    split; [done|]. split; [congruence|]. split; [done|].
    intros t i. apply issue_built.
  - destruct (from_any_supported environ p model_name async_client None Hp)
      as (h & m & Hh & Hm & Hdef & _).
    exists h. rewrite (from_any_run_issue v _ _ _ _ _ _ Hh).
    split; [done|]. split; [congruence|]. split; [done|].
    intros t i. apply issue_built.
Qed.

Lemma from_any_mode_resolution_witness :
  GROQ ∈ supported ∧
  ∃ h, from_any {[ "GROQ_API_KEY" := "gsk" ]} GROQ "llama3-8b" false None
       = Return h ∧
       org_to_mode !! GROQ = Some (mode h) ∧
       from_any_run sample_vendor {[ "GROQ_API_KEY" := "gsk" ]}
         GROQ "llama3-8b" false None
       = issue sample_vendor {[ "GROQ_API_KEY" := "gsk" ]} h ∧
       ∀ t i, from_any_run sample_vendor {[ "GROQ_API_KEY" := "gsk" ]}
                GROQ "llama3-8b" false None = Built t i ↔
              construct sample_vendor {[ "GROQ_API_KEY" := "gsk" ]} (transport h)
              = Returned t ∧
              wrap sample_vendor h t = Returned i.
Proof.
  assert (Hin : GROQ ∈ supported) by (unfold supported; repeat constructor).
  split; [exact Hin|].
  exact (proj2 (from_any_mode_resolution sample_vendor
                  {[ "GROQ_API_KEY" := "gsk" ]} GROQ "llama3-8b" false Hin)).
Defined.




(** C6 fails on the code at MISTRAL, by the defect of C2: whatever the
    async flag, the mode and the environment, the call returns neither
    kind of handle.  The transport constructed is of the asynchronous
    class exactly when the flag is set, but the wrapper gets only its
    [chat] attribute, as [create], and raises. *)
Theorem from_any_mistral_no_handle {T I} (v : Vendor T I) environ model_name
    async_client md :
  client_required v →
  (∀ t i, from_any_run v environ MISTRAL model_name async_client md
          ≠ Built t i) ∧
  ∃ h, from_any_run v environ MISTRAL model_name async_client md
       = issue v environ h ∧
       is_async_class (transport_class (transport h)) = async_client ∧
       (∀ t, construct v environ (transport h) = Returned t →
             ∃ x, from_any_run v environ MISTRAL model_name async_client md
                  = WrapperThrew h t x).
Proof.
  intros Hreq.
  assert (Hin : MISTRAL ∈ supported) by (unfold supported; repeat constructor).
  destruct (from_any_supported environ MISTRAL model_name async_client md Hin)
    as (h & _ & Hh & _ & _ & Hasync).
  destruct (from_any_return_inv _ _ _ _ _ _ Hh) as (k & m & _ & Heq & _).
  assert (Hthrow : ∀ t, ∃ x, wrap v h t = Threw x).
  { intros t. apply (Hreq h t (transport h)); by rewrite Heq. }
  rewrite (from_any_run_issue v _ _ _ _ _ _ Hh). split.
  - intros t i [_ Hw]%issue_built. destruct (Hthrow t) as [x Hx]. congruence.
  - exists h. split; [done|]. split; [done|].
    intros t Ht. destruct (Hthrow t) as [x Hx]. exists x.
    unfold issue. by rewrite Ht, Hx.
Qed.

Lemma from_any_mistral_no_handle_witness :
  client_required sample_vendor ∧
  (∀ t i, from_any_run sample_vendor {[ "MISTRAL_API_KEY" := "mk-1" ]}
            MISTRAL "mistral-large" true None ≠ Built t i).
Proof.
  split; [exact sample_vendor_client_required|].
  exact (proj1 (from_any_mistral_no_handle sample_vendor
                  {[ "MISTRAL_API_KEY" := "mk-1" ]} "mistral-large" true None
                  sample_vendor_client_required)).
Defined.

(** ** The provider without a construction branch *)

(** C8: VOYAGE has an entry in the table of [get_api_key], so that call
    returns the value of VOYAGE_API_KEY; [from_any] then fails at the
    assertion of [get_default_mode] when no mode is given, and at its own
    final raise when a mode is given. *)
Theorem from_any_voyage environ model_name async_client :
  get_api_key environ VOYAGE = Return (getenv environ "VOYAGE_API_KEY") ∧
  (VOYAGE ∉ supported) ∧
  from_any environ VOYAGE model_name async_client None
    = Raise (DefaultModeNotRecognized VOYAGE) ∧
  (∀ m, from_any environ VOYAGE model_name async_client (Some m)
        = Raise (UnsupportedProvider VOYAGE)).
Proof.
  assert (Hk : get_api_key environ VOYAGE = Return (getenv environ "VOYAGE_API_KEY"))
    by by apply get_api_key_recognized.
  split; [exact Hk|]. split; [by apply (bool_decide_unpack _)|].
  unfold from_any. rewrite Hk. split; [reflexivity|]. intros m. reflexivity.
Qed.

(** ** The model name *)

(** C9: for a provider other than COHERE, two calls of [from_any] that
    differ in the model name only give the same result. *)
Theorem from_any_model_name_irrelevant environ p m1 m2 async_client md :
  p ≠ COHERE →
  from_any environ p m1 async_client md = from_any environ p m2 async_client md.
Proof.
  intros Hp. unfold from_any.
  destruct (get_api_key environ p) as [k|e]; [|reflexivity]. cbn.
  destruct (match md with None => get_default_mode p | Some m => Return m end)
    as [m|e]; [|reflexivity]. cbn.
  destruct p; try reflexivity. by destruct Hp.
Qed.

Lemma from_any_model_name_irrelevant_witness :
  GROQ ≠ COHERE ∧
  from_any {[ "GROQ_API_KEY" := "gsk" ]} GROQ "llama3-8b" false None
  = from_any {[ "GROQ_API_KEY" := "gsk" ]} GROQ "mixtral" false None.
Proof.
  assert (Hne : GROQ ≠ COHERE) by discriminate.
  split; [exact Hne|].
  exact (from_any_model_name_irrelevant {[ "GROQ_API_KEY" := "gsk" ]} GROQ
           "llama3-8b" "mixtral" false None Hne).
Defined.

(** In the COHERE branch the model name reaches the handle. *)
Lemma from_any_cohere_model environ model_name async_client md h :
  from_any environ COHERE model_name async_client md = Return h →
  model h = Passed model_name.
Proof.
  unfold from_any. rewrite (get_api_key_recognized _ COHERE _ eq_refl). cbn.
  destruct md as [m|]; cbn; destruct async_client; by intros [= <-].
Qed.

(** ** The two failure causes *)

(** C3, as the specification states it, does not hold: VOYAGE is in the
    table of [get_api_key] and has no construction branch, yet with no
    mode given [from_any] fails with an assertion error, the class of the
    error raised for a provider that the table lacks, and not with the
    error of the final branch. *)
Lemma from_any_voyage_not_distinguished :
  is_Some (model_to_api_key ∅ !! VOYAGE) ∧
  (VOYAGE ∉ supported) ∧
  raises (from_any ∅ VOYAGE "voyage-2" false None) AssertionError ∧
  ¬ raises (from_any ∅ VOYAGE "voyage-2" false None) ValueError.
Proof.
  split; [by eexists|]. split; [by apply (bool_decide_unpack _)|]. split.
  - eexists. split; reflexivity.
  - intros (e & He & Hc). injection He as <-. discriminate Hc.
Qed.

(** C3, amended: when a mode is given, a provider that is in the table
    of [get_api_key] and has no construction branch makes [from_any]
    fail with a [ValueError], while a provider that the table lacks makes
    it fail with an [AssertionError]; the two classes differ. *)
Theorem from_any_unsupported_distinct environ p q model_name async_client m :
  is_Some (model_to_api_key environ !! p) →
  p ∉ supported →
  model_to_api_key environ !! q = None →
  ∃ e e', from_any environ p model_name async_client (Some m) = Raise e ∧
          exn_class e = ValueError ∧
          from_any environ q model_name async_client (Some m) = Raise e' ∧
          exn_class e' = AssertionError ∧
          exn_class e ≠ exn_class e'.
Proof.
  rewrite !model_to_api_key_lookup. intros [k Hk] Hp Hq.
  destruct (credential_variable p) as [v|] eqn:Hv; [|discriminate].
  destruct (credential_variable q) as [w|] eqn:Hw; [discriminate|].
  exists (UnsupportedProvider p), (ApiKeyNotRecognized q).
  split; [|split; [reflexivity|split; [|split; [reflexivity|discriminate]]]].
  - unfold from_any. rewrite (get_api_key_recognized _ _ _ Hv). cbn.
    destruct p; try reflexivity; exfalso; apply Hp;
      unfold supported; repeat constructor.
  - by apply from_any_unrecognized.
Qed.

Lemma from_any_unsupported_distinct_witness :
  is_Some (model_to_api_key ∅ !! VOYAGE) ∧
  (VOYAGE ∉ supported) ∧
  model_to_api_key ∅ !! OTHER "GEMINI" = None ∧
  ∃ e e', from_any ∅ VOYAGE "voyage-2" false (Some TOOLS) = Raise e ∧
          exn_class e = ValueError ∧
          from_any ∅ (OTHER "GEMINI") "voyage-2" false (Some TOOLS) = Raise e' ∧
          exn_class e' = AssertionError ∧
          exn_class e ≠ exn_class e'.
Proof.
  assert (H1 : is_Some (model_to_api_key ∅ !! VOYAGE)) by (eexists; reflexivity).
  assert (H2 : VOYAGE ∉ supported) by (apply (bool_decide_unpack _); exact I).
  assert (H3 : model_to_api_key ∅ !! OTHER "GEMINI" = None) by reflexivity.
  split; [exact H1|]. split; [exact H2|]. split; [exact H3|].
  exact (from_any_unsupported_distinct ∅ VOYAGE (OTHER "GEMINI") "voyage-2"
           false TOOLS H1 H2 H3).
Defined.

(** ** The chat URLs *)

Lemma model_to_chat_url_lookup o :
  is_Some (model_to_chat_url !! o) ↔ o ∈ chat_url_orgs.
Proof.
  unfold chat_url_orgs. split.
  - intros [u Hu]. unfold model_to_chat_url in Hu. cbn in Hu.
    repeat match type of Hu with
           | <[?k:=_]> _ !! _ = _ =>
               destruct (decide (k = o)) as [<-|?];
               [ repeat constructor | rewrite lookup_insert_ne in Hu by done ]
           end.
    by rewrite lookup_empty in Hu.
  - intros Ho. repeat (apply elem_of_cons in Ho as [->|Ho]); [by eexists..|].
    by apply elem_of_nil in Ho.
Qed.

Lemma get_chat_urls_unfold (model_mapping : gmap string ModelInfo) model_name :
  get_chat_urls model_mapping model_name =
  match model_mapping !! model_name with
  | None => Raise (MissingKey model_name)
  | Some info =>
      match model_to_chat_url !! org info with
      | Some u => Return u
      | None => Raise (MissingKey (org info))
      end
  end.
Proof.
  unfold get_chat_urls, subscript.
  by destruct (model_mapping !! model_name).
Qed.

(** C10: [get_chat_urls] returns a URL exactly for the model names that
    [model_mapping] maps to one of the organizations openai, anyscale,
    anthropic, cohere and voyage; a name absent from [model_mapping]
    fails with a key error on the name, a name mapped to another
    organization, groq and mistral among them, fails with a key error
    on the organization, and a voyage model gets the embeddings URL. *)
Theorem get_chat_urls_domain (model_mapping : gmap string ModelInfo)
    (model_name : string) :
  (returns (get_chat_urls model_mapping model_name) ↔
   ∃ info, model_mapping !! model_name = Some info ∧ org info ∈ chat_url_orgs) ∧
  (model_mapping !! model_name = None →
   get_chat_urls model_mapping model_name = Raise (MissingKey model_name)) ∧
  (∀ info, model_mapping !! model_name = Some info →
           org info ∉ chat_url_orgs →
           get_chat_urls model_mapping model_name = Raise (MissingKey (org info))) ∧
  (∀ info, model_mapping !! model_name = Some info →
           org info = "groq" ∨ org info = "mistral" →
           raises (get_chat_urls model_mapping model_name) KeyError) ∧
  (∀ info, model_mapping !! model_name = Some info →
           org info = "voyage" →
           get_chat_urls model_mapping model_name
           = Return "https://api.voyageai.com/v1/embeddings").
Proof.
  rewrite get_chat_urls_unfold. unfold returns.
  destruct (model_mapping !! model_name) as [info|] eqn:Hinfo.
  - pose proof (model_to_chat_url_lookup (org info)) as Hdom.
    split; [|split; [done|split; [|split]]].
    + destruct (model_to_chat_url !! org info) as [u|] eqn:Hu.
      * split; [|intros _; by eexists]. intros _. exists info. split; [done|].
        by apply Hdom.
      * split; [by intros [??]|]. intros (i & [= <-] & Hi).
        apply Hdom in Hi as [??]. done.
    + intros i [= <-] Hi.
      destruct (model_to_chat_url !! org info) as [u|] eqn:Hu; [|done].
      destruct Hi. by apply Hdom.
    + intros i [= <-] [Ho|Ho]; rewrite Ho; eexists; split; reflexivity.
    + intros i [= <-] Ho. by rewrite Ho.
  - split; [|split; [done|split; [done|split; done]]].
    split; [by intros [??]|]. by intros (i & ? & _).
Qed.

Lemma get_chat_urls_domain_witness :
  ({[ "voyage-2" := mkModelInfo "voyage" ]} : gmap string ModelInfo) !! "voyage-2"
  = Some (mkModelInfo "voyage") ∧
  org (mkModelInfo "voyage") = "voyage" ∧
  get_chat_urls {[ "voyage-2" := mkModelInfo "voyage" ]} "voyage-2"
  = Return "https://api.voyageai.com/v1/embeddings".
Proof.
  split; [reflexivity|]. split; [reflexivity|].
  exact (proj2 (proj2 (proj2 (proj2
           (get_chat_urls_domain {[ "voyage-2" := mkModelInfo "voyage" ]} "voyage-2"))))
           (mkModelInfo "voyage") eq_refl eq_refl).
Defined.

(** ** The batch dispatcher *)

Lemma out_index_outcome_of r res : out_index (outcome_of r res) = seq_index r.
Proof. by destruct res. Qed.

Lemma load_pending_from_indices i lines provider ma :
  Forall wellformed lines →
  seq_index <$> load_pending_from i lines provider ma = seq i (length lines).
Proof.
  intros Hwf. revert i.
  induction Hwf as [|ln lines Hln _ IH]; intros i; [done|].
  destruct ln as [m p|t]; [|done]. cbn. by rewrite IH.
Qed.

Lemma load_pending_length lines provider ma :
  Forall wellformed lines →
  length (load_pending lines provider ma) = length lines.
Proof.
  intros Hwf.
  rewrite <-(length_fmap seq_index), (load_pending_from_indices 0 _ _ _ Hwf).
  apply length_seq.
Qed.

Section DispatcherProperties.

Variable call : nat → nat → CallResult.

Lemma unresolved_same l1 r ph r' ph' l2 out out' :
  seq_index r' = seq_index r →
  unresolved (mkDispatch (l1 ++ (r', ph') :: l2) out')
  = unresolved (mkDispatch (l1 ++ (r, ph) :: l2) out).
Proof.
  intros Hidx. unfold unresolved. cbn.
  rewrite !fmap_app, !fmap_cons. cbn. by rewrite Hidx.
Qed.

Lemma step_accounted saved indices s s' :
  step call s s' → accounted saved indices s → accounted saved indices s'.
Proof.
  intros Hstep (new & Hled & Hperm).
  destruct Hstep as [l1 r l2 out|l1 r l2 out Hc|l1 r l2 out|l1 r l2 out Hc];
    cbn in Hled.
  - exists new. split; [done|].
    by rewrite (unresolved_same l1 r PENDING r IN_FLIGHT l2 out out).
  - exists new. split; [done|].
    by rewrite (unresolved_same l1 r IN_FLIGHT r RETRYING l2 out out).
  - exists new. split; [done|].
    by rewrite (unresolved_same l1 r RETRYING (next_attempt r) IN_FLIGHT l2 out out).
  - exists (new ++ [outcome_of r (call (seq_index r) (attempt_count r))]).
    split; [cbn; by rewrite Hled, (assoc_L (++))|].
    rewrite <-Hperm. unfold unresolved. cbn.
    rewrite !fmap_app, fmap_cons, out_index_outcome_of. cbn.
    rewrite <-!(assoc_L (++)). apply Permutation_app_head.
    rewrite (Permutation_app_comm _ [seq_index r]). cbn.
    by rewrite Permutation_middle.
Qed.

Lemma run_accounted saved indices s s' :
  rtc (step call) s s' → accounted saved indices s → accounted saved indices s'.
Proof.
  induction 1 as [|s1 s2 s3 Hstep _ IH]; [done|].
  intros Hacc. apply IH. by eapply step_accounted.
Qed.

Lemma start_accounted records saved :
  accounted saved (seq_index <$> records) (start records saved).
Proof.
  exists []. split; [cbn; by rewrite (right_id_L [] (++))|].
  unfold unresolved, start. cbn.
  rewrite (right_id_L [] (++)), <-list_fmap_compose. done.
Qed.

(** One unit, once in flight, reaches its terminal outcome. *)
Lemma resolve_run k r l1 l2 out :
  attempts_left r = k →
  rtc (step call)
    (mkDispatch (l1 ++ (r, IN_FLIGHT) :: l2) out)
    (mkDispatch (l1 ++ l2) (out ++ [resolve call k r])).
Proof.
  revert r. induction k as [|k IH]; intros r Hk.
  - assert (Hc : classify r (call (seq_index r) (attempt_count r)) ≠ RETRYING).
    { unfold classify, attempts_left in *.
      destruct (call _ _); try discriminate.
      destruct (Nat.ltb_spec (attempt_count r) (max_attempts r)); [lia|discriminate]. }
    apply rtc_once.
    replace (resolve call 0 r)
      with (outcome_of r (call (seq_index r) (attempt_count r)))
      by (cbn; by destruct (call _ _)).
    by apply step_terminal.
  - destruct (call (seq_index r) (attempt_count r)) as [p|e|e] eqn:Hres.
    + apply rtc_once.
      replace (resolve call (S k) r)
        with (outcome_of r (call (seq_index r) (attempt_count r)))
        by (cbn; by rewrite Hres).
      apply step_terminal. by rewrite Hres.
    + eapply rtc_l; [apply step_retry|].
      { rewrite Hres. unfold classify, attempts_left in *.
        destruct (Nat.ltb_spec (attempt_count r) (max_attempts r)); [done|lia]. }
      eapply rtc_l; [apply step_backoff|].
      replace (resolve call (S k) r) with (resolve call k (next_attempt r))
        by (cbn; by rewrite Hres).
      apply IH. unfold attempts_left in *. cbn. lia.
    + apply rtc_once.
      replace (resolve call (S k) r)
        with (outcome_of r (call (seq_index r) (attempt_count r)))
        by (cbn; by rewrite Hres).
      apply step_terminal. by rewrite Hres.
Qed.

(** The run that resolves the records one after the other. *)
Lemma sequential_run records out :
  rtc (step call) (start records out)
    (mkDispatch [] (out ++ ((λ r, resolve call (attempts_left r) r) <$> records))).
Proof.
  revert out. induction records as [|r records IH]; intros out.
  - cbn. rewrite (right_id_L [] (++)). apply rtc_refl.
  - pose (rest := (λ r, (r, PENDING)) <$> records).
    apply (rtc_l _ _ (mkDispatch ([] ++ (r, IN_FLIGHT) :: rest) out));
      [exact (step_grant call [] r rest out)|].
    apply (rtc_trans _
             (mkDispatch ([] ++ rest) (out ++ [resolve call (attempts_left r) r])));
      [exact (resolve_run (attempts_left r) r [] rest out eq_refl)|].
    specialize (IH (out ++ [resolve call (attempts_left r) r])).
    rewrite <-(assoc_L (++)) in IH. exact IH.
Qed.

End DispatcherProperties.

Lemma finish_run call units out :
  Forall live units →
  rtc (step call) (mkDispatch units out)
    (mkDispatch [] (out ++ (finish call <$> units))).
Proof.
  intros Hlive. revert out.
  induction Hlive as [|[r ph] units Hu _ IH]; intros out.
  - cbn. rewrite (right_id_L [] (++)). apply rtc_refl.
  - specialize (IH (out ++ [finish call (r, ph)])).
    rewrite <-(assoc_L (++)) in IH.
    refine (rtc_trans _
              (mkDispatch ([] ++ units) (out ++ [finish call (r, ph)])) _ _ IH).
    destruct Hu as [Hph|[Hph|Hph]]; cbn in Hph; subst ph; unfold finish; cbn.
    + apply (rtc_l _ _ (mkDispatch ([] ++ (r, IN_FLIGHT) :: units) out));
        [exact (step_grant call [] r units out)|].
      exact (resolve_run call (attempts_left r) r [] units out eq_refl).
    + exact (resolve_run call (attempts_left r) r [] units out eq_refl).
    + apply (rtc_l _ _ (mkDispatch ([] ++ (next_attempt r, IN_FLIGHT) :: units) out));
        [exact (step_backoff call [] r units out)|].
      exact (resolve_run call (attempts_left (next_attempt r)) (next_attempt r)
               [] units out eq_refl).
Qed.

Lemma step_live call s s' :
  step call s s' → Forall live (in_progress s) → Forall live (in_progress s').
Proof.
  intros Hstep. destruct Hstep; cbn;
    rewrite !Forall_app, ?Forall_cons; intros (H1 & _ & H2);
    repeat split; try done; unfold live; cbn; auto.
Qed.

(** Whatever the interleaving so far, the run can be completed: no
    reachable state is stuck with a record that has no outcome. *)
Lemma run_can_complete call records saved s :
  rtc (step call) (start records saved) s →
  ∃ final, rtc (step call) s final ∧ in_progress final = [].
Proof.
  intros Hrun.
  assert (Hlive : Forall live (in_progress s)).
  { revert s Hrun. apply rtc_ind_r.
    - unfold start. cbn. apply Forall_fmap, Forall_true. intros r. by left.
    - intros s1 s2 _ Hstep IH. by eapply step_live. }
  destruct s as [units out]. eexists. split; [by apply finish_run|done].
Qed.

(** C7: for a request file of N well-formed records, a dispatch run
    completes, every run under way can be completed, and every completed
    run has appended to the output file exactly N outcome records, whose
    sequence indices are pairwise distinct and are the indices of the N
    input records: none is dropped, none has two outcomes. *)
Theorem dispatch_one_outcome_per_record (call : nat → nat → CallResult)
    (lines : list Line) (saved : list OutcomeRecord)
    (provider : Provider) (attempts : nat) :
  Forall wellformed lines →
  let records := load_pending lines provider attempts in
  (∃ final, rtc (step call) (start records saved) final ∧
            in_progress final = [] ∧
            ledger final
            = process_api_requests_from_file call lines saved provider attempts) ∧
  (∀ s, rtc (step call) (start records saved) s →
        ∃ final, rtc (step call) s final ∧ in_progress final = []) ∧
  (∀ final, rtc (step call) (start records saved) final →
            in_progress final = [] →
            ∃ new, ledger final = saved ++ new ∧
                   length new = length lines ∧
                   NoDup (out_index <$> new) ∧
                   out_index <$> new ≡ₚ seq_index <$> records ∧
                   seq_index <$> records = seq 0 (length lines)).
Proof.
  intros Hwf records.
  assert (Hidx : seq_index <$> records = seq 0 (length lines))
    by by apply load_pending_from_indices.
  split; [|split].
  - eexists. split; [apply sequential_run|]. by split.
  - intros s Hrun. by eapply run_can_complete.
  - intros final Hrun Hdone.
    destruct (run_accounted call saved (seq_index <$> records) _ _ Hrun
                (start_accounted records saved)) as (new & Hled & Hperm).
    unfold unresolved in Hperm. rewrite Hdone in Hperm. cbn in Hperm.
    exists new. split; [done|]. split; [|split; [|by split]].
    + rewrite <-(length_fmap out_index), Hperm, Hidx. apply length_seq.
    + rewrite Hperm, Hidx. apply NoDup_seq.
Qed.

Example sample_run :
  process_api_requests_from_file sample_call sample_requests [] OPENAI 3
  = [ mkOutcome 0 true "one" 1; mkOutcome 1 true "two" 3 ].
Proof. reflexivity. Qed.

Example sample_run_exhausted :
  process_api_requests_from_file sample_call sample_requests [] OPENAI 2
  = [ mkOutcome 0 true "one" 1; mkOutcome 1 false "timeout" 2 ].
Proof. reflexivity. Qed.

Lemma dispatch_one_outcome_per_record_witness :
  Forall wellformed sample_requests ∧
  ∃ final,
    rtc (step sample_call)
      (start (load_pending sample_requests OPENAI 3) []) final ∧
    in_progress final = [] ∧
    ledger final
    = process_api_requests_from_file sample_call sample_requests [] OPENAI 3.
Proof.
  assert (Hwf : Forall wellformed sample_requests)
    by (repeat constructor).
  split; [exact Hwf|].
  exact (proj1 (dispatch_one_outcome_per_record sample_call sample_requests []
                  OPENAI 3 Hwf)).
Defined.

(** * Further properties of the code *)

Example create_chat_prompts_2 :
  Pipeline.user_question <$> Pipeline.create_chat_prompts 2
  = [ Some "Tell me an interesting fact about the number 1.";
      Some "Tell me an interesting fact about the number 2." ].
Proof. vm_compute. reflexivity. Qed.

(** ** When the factory returns and when it raises *)

Lemma from_any_run_raised {T I} (v : Vendor T I) environ p model_name
    async_client md e :
  from_any_run v environ p model_name async_client md = Raised e ↔
  from_any environ p model_name async_client md = Raise e.
Proof.
  unfold from_any_run.
  destruct (from_any environ p model_name async_client md) as [h|e'].
  - split; [|done]. intros H. by apply issue_not_raised in H.
  - split; by intros [= ->].
Qed.

(** X1: [from_any] raises an error of its own exactly for the providers
    that have no construction branch, whatever the environment, the
    model name, the async flag, the mode and the vendor libraries; for
    the six supported providers a failure is an exception of a vendor
    call. *)
Theorem from_any_own_error_iff_unsupported {T I} (v : Vendor T I) environ p
    model_name async_client md :
  (∃ e, from_any_run v environ p model_name async_client md = Raised e) ↔
  p ∉ supported.
Proof.
  split.
  - intros [e He%from_any_run_raised] Hp.
    destruct (from_any_supported environ p model_name async_client md Hp)
      as (h & _ & Hh & _). congruence.
  - intros Hp. destruct (credential_variable p) as [var|] eqn:Hv.
    + exists (match md with
              | None => DefaultModeNotRecognized p
              | Some _ => UnsupportedProvider p
              end).
      apply from_any_run_raised.
      rewrite (from_any_recognized_unsupported _ _ _ _ _ _ Hv Hp).
      by destruct md.
    + eexists. apply from_any_run_raised. by apply from_any_unrecognized.
Qed.

(** X2: the three errors of its own that [from_any] raises.  A provider
    that the table of [get_api_key] lacks fails at that function's
    assertion, before anything else is looked at; a provider of that
    table without a default mode fails at the assertion of
    [get_default_mode] when no mode is given; a provider of that table
    without a construction branch fails at the final raise when a mode
    is given.  The module raises no other error, and each of these names
    the provider of the call. *)
Theorem from_any_own_error_cases {T I} (v : Vendor T I) environ p model_name
    async_client md e :
  from_any_run v environ p model_name async_client md = Raised e ↔
  (model_to_api_key environ !! p = None ∧ e = ApiKeyNotRecognized p) ∨
  (is_Some (model_to_api_key environ !! p) ∧ org_to_mode !! p = None ∧
   md = None ∧ e = DefaultModeNotRecognized p) ∨
  (is_Some (model_to_api_key environ !! p) ∧ (p ∉ supported) ∧
   is_Some md ∧ e = UnsupportedProvider p).
Proof.
  rewrite from_any_run_raised, model_to_api_key_lookup.
  destruct (credential_variable p) as [var|] eqn:Hv; cbn -[org_to_mode supported].
  - destruct (decide (p ∈ supported)) as [Hp|Hp].
    + destruct (from_any_supported environ p model_name async_client md Hp)
        as (h & _ & -> & _).
      apply org_to_mode_supported in Hp as Hm. destruct Hm as [m Hm].
      split; [done|].
      intros [[? _]|[(_ & ? & _)|(_ & ? & _)]]; [done|congruence|done].
    + rewrite (from_any_recognized_unsupported _ _ _ _ _ _ Hv Hp).
      assert (Hm : org_to_mode !! p = None).
      { destruct (org_to_mode !! p) as [m|] eqn:Hm; [|done].
        destruct Hp. apply org_to_mode_supported. by eexists. }
      destruct md as [m|]; split.
      * intros [= <-]. right; right. by repeat split; try eexists.
      * intros [[? _]|[(_ & _ & ? & _)|(_ & _ & _ & ->)]]; done.
      * intros [= <-]. right; left. by repeat split; try eexists.
      * intros [[? _]|[(_ & _ & _ & ->)|(_ & _ & [? ?] & _)]]; done.
  - rewrite (from_any_unrecognized _ _ _ _ _ Hv). split.
    + intros [= <-]. by left.
    + intros [[_ ->]|[([? ?] & _)|([? ?] & _)]]; done.
Qed.

(** X3: an error that [from_any] raises itself is an [AssertionError] or
    a [ValueError], and [get_chat_urls], which calls no vendor library,
    raises nothing but a [KeyError]. *)
Theorem raised_classes {T I} (v : Vendor T I) (environ : gmap string string)
    p model_name async_client md (model_mapping : gmap string ModelInfo) e c :
  (from_any_run v environ p model_name async_client md = Raised e →
   exn_class e = AssertionError ∨ exn_class e = ValueError) ∧
  (raises (get_chat_urls model_mapping model_name) c → c = KeyError).
Proof.
  split.
  - intros He%from_any_run_raised.
    destruct (decide (p ∈ supported)) as [Hp|Hp].
    { destruct (from_any_supported environ p model_name async_client md Hp)
        as (h & _ & Hh & _). congruence. }
    destruct (credential_variable p) as [var|] eqn:Hv.
    + rewrite (from_any_recognized_unsupported _ _ _ _ _ _ Hv Hp) in He.
      destruct md; injection He as <-; cbn; auto.
    + rewrite (from_any_unrecognized _ _ _ _ _ Hv) in He.
      injection He as <-; cbn; auto.
  - intros (e' & He & <-). rewrite get_chat_urls_unfold in He.
    destruct (model_mapping !! model_name) as [info|]; [|by injection He as <-].
    destruct (model_to_chat_url !! org info); [done|by injection He as <-].
Qed.

Lemma raised_classes_witness :
  from_any_run sample_vendor ∅ VOYAGE "voyage-2" false (Some TOOLS)
  = Raised (UnsupportedProvider VOYAGE) ∧
  (exn_class (UnsupportedProvider VOYAGE) = AssertionError ∨
   exn_class (UnsupportedProvider VOYAGE) = ValueError).
Proof.
  split; [reflexivity|].
  exact (proj1 (raised_classes sample_vendor ∅ VOYAGE "voyage-2" false
                  (Some TOOLS) ∅ (UnsupportedProvider VOYAGE) KeyError) eq_refl).
Defined.

(** X23: for each supported provider the constructor that [from_any]
    calls is the one of the asynchronous transport class exactly when
    [async_client] is set, and a handle that is returned is built over
    the object which that constructor returned. *)
Theorem from_any_transport_class {T I} (v : Vendor T I) environ p model_name
    async_client md :
  p ∈ supported →
  ∃ h, from_any_run v environ p model_name async_client md = issue v environ h ∧
       is_async_class (transport_class (transport h)) = async_client ∧
       ∀ t i, from_any_run v environ p model_name async_client md = Built t i →
              construct v environ (transport h) = Returned t.
Proof.
  intros Hp.
  destruct (from_any_supported environ p model_name async_client md Hp)
    as (h & _ & Hh & _ & _ & Hasync).
  exists h. rewrite (from_any_run_issue v _ _ _ _ _ _ Hh).
  split; [done|]. split; [done|]. by intros t i [Hc _]%issue_built.
Qed.

Lemma from_any_transport_class_witness :
  ANTHROPIC ∈ supported ∧
  ∃ h, from_any_run sample_vendor {[ "ANTHROPIC_API_KEY" := "sk-ant" ]}
         ANTHROPIC "claude-3" true None
       = issue sample_vendor {[ "ANTHROPIC_API_KEY" := "sk-ant" ]} h ∧
       is_async_class (transport_class (transport h)) = true ∧
       ∀ t i, from_any_run sample_vendor {[ "ANTHROPIC_API_KEY" := "sk-ant" ]}
                ANTHROPIC "claude-3" true None = Built t i →
              construct sample_vendor {[ "ANTHROPIC_API_KEY" := "sk-ant" ]}
                (transport h) = Returned t.
Proof.
  assert (Hin : ANTHROPIC ∈ supported) by (unfold supported; repeat constructor).
  split; [exact Hin|].
  exact (from_any_transport_class sample_vendor
           {[ "ANTHROPIC_API_KEY" := "sk-ant" ]} ANTHROPIC "claude-3" true None Hin).
Defined.

(** ** The environment *)

Lemma credential_variable_inj p q v :
  credential_variable p = Some v → credential_variable q = Some v → p = q.
Proof. destruct p, q; cbn; congruence. Qed.

(** X4: [get_api_key] reads one variable.  After the provider's variable
    is set, the function returns the value set; after it is unset, the
    function returns [None]; in both cases without an error. *)
Theorem get_api_key_set_unset environ p v k :
  credential_variable p = Some v →
  get_api_key (<[v:=k]> environ) p = Return (Some k) ∧
  get_api_key (delete v environ) p = Return None.
Proof.
  intros Hv. rewrite !(get_api_key_recognized _ _ _ Hv). unfold getenv.
  by rewrite lookup_insert_eq, lookup_delete_eq.
Qed.

Lemma get_api_key_set_unset_witness :
  credential_variable MISTRAL = Some "MISTRAL_API_KEY" ∧
  get_api_key (<["MISTRAL_API_KEY":="mk-1"]> ∅) MISTRAL = Return (Some "mk-1") ∧
  get_api_key (delete "MISTRAL_API_KEY" ∅) MISTRAL = Return None.
Proof.
  split; [reflexivity|].
  exact (get_api_key_set_unset ∅ MISTRAL "MISTRAL_API_KEY" "mk-1" eq_refl).
Defined.

(** X5: the providers' variables are pairwise distinct: setting or
    unsetting the credential variable of one provider leaves the key
    that [get_api_key] returns for every other provider as it was. *)
Theorem get_api_key_isolated environ p q v k :
  credential_variable p = Some v →
  q ≠ p →
  get_api_key (<[v:=k]> environ) q = get_api_key environ q ∧
  get_api_key (delete v environ) q = get_api_key environ q.
Proof.
  intros Hv Hq.
  destruct (credential_variable q) as [w|] eqn:Hw.
  - assert (v ≠ w) by (intros ->; by destruct Hq; eapply credential_variable_inj).
    rewrite !(get_api_key_recognized _ _ _ Hw). unfold getenv.
    by rewrite lookup_insert_ne, lookup_delete_ne.
  - by rewrite !(get_api_key_unrecognized _ _ Hw).
Qed.

Lemma get_api_key_isolated_witness :
  credential_variable OPENAI = Some "OPENAI_API_KEY" ∧
  ANYSCALE ≠ OPENAI ∧
  get_api_key (<["OPENAI_API_KEY":="sk-1"]> {[ "ANYSCALE_API_KEY" := "esecret" ]}) ANYSCALE
  = get_api_key {[ "ANYSCALE_API_KEY" := "esecret" ]} ANYSCALE ∧
  get_api_key (delete "OPENAI_API_KEY" {[ "ANYSCALE_API_KEY" := "esecret" ]}) ANYSCALE
  = get_api_key {[ "ANYSCALE_API_KEY" := "esecret" ]} ANYSCALE.
Proof.
  assert (Hne : ANYSCALE ≠ OPENAI) by discriminate.
  split; [reflexivity|]. split; [exact Hne|].
  exact (get_api_key_isolated {[ "ANYSCALE_API_KEY" := "esecret" ]}
           OPENAI ANYSCALE "OPENAI_API_KEY" "sk-1" eq_refl Hne).
Defined.

(** ** The arguments of the constructed handle *)

(** X8: a base URL is passed to the transport in the ANYSCALE branch
    only, and it is the Anyscale endpoint; every other transport is
    constructed without a base URL. *)
Theorem from_any_base_url environ p model_name async_client md h :
  from_any environ p model_name async_client md = Return h →
  (p = ANYSCALE ∧ base_url (transport h) = Passed anyscale_base_url) ∨
  (p ≠ ANYSCALE ∧ base_url (transport h) = Omitted).
Proof.
  intros Hh.
  destruct (from_any_return_inv _ _ _ _ _ _ Hh) as (k & m & _ & -> & Hp).
  unfold supported in Hp.
  repeat (apply elem_of_cons in Hp as [->|Hp]);
    try (by apply elem_of_nil in Hp); cbn; auto.
Qed.

Lemma from_any_base_url_witness :
  from_any ∅ ANYSCALE "llama-2" false None
  = Return (mkHandle from_openai
              (Client (mkRawClient OpenAI (Passed anyscale_base_url) (Passed None)))
              Omitted Omitted JSON_SCHEMA) ∧
  ((ANYSCALE = ANYSCALE ∧
    base_url (mkRawClient OpenAI (Passed anyscale_base_url) (Passed None))
    = Passed anyscale_base_url) ∨
   (ANYSCALE ≠ ANYSCALE ∧
    base_url (mkRawClient OpenAI (Passed anyscale_base_url) (Passed None))
    = Omitted)).
Proof.
  split; [reflexivity|].
  exact (from_any_base_url ∅ ANYSCALE "llama-2" false None
           (mkHandle from_openai
              (Client (mkRawClient OpenAI (Passed anyscale_base_url) (Passed None)))
              Omitted Omitted JSON_SCHEMA) eq_refl).
Defined.

(** X9: the wrapper receives [max_tokens] and [model] in the COHERE
    branch only, where [max_tokens] is 0 and [model] is the model name
    of the call; for every other provider both are left out. *)
Theorem from_any_wrapper_arguments environ p model_name async_client md h :
  from_any environ p model_name async_client md = Return h →
  (p = COHERE ∧ max_tokens h = Passed 0%Z ∧ model h = Passed model_name) ∨
  (p ≠ COHERE ∧ max_tokens h = Omitted ∧ model h = Omitted).
Proof.
  intros Hh.
  destruct (from_any_return_inv _ _ _ _ _ _ Hh) as (k & m & _ & -> & Hp).
  unfold supported in Hp.
  repeat (apply elem_of_cons in Hp as [->|Hp]);
    try (by apply elem_of_nil in Hp); cbn; auto.
Qed.

Lemma from_any_wrapper_arguments_witness :
  from_any ∅ COHERE "command-r" false None
  = Return (mkHandle from_cohere
              (Client (mkRawClient cohere_Client Omitted Omitted))
              (Passed 0%Z) (Passed "command-r") COHERE_TOOLS) ∧
  ((COHERE = COHERE ∧ Passed 0%Z = Passed 0%Z ∧
    Passed "command-r" = Passed "command-r") ∨
   (COHERE ≠ COHERE ∧ Passed 0%Z = @Omitted Z ∧
    Passed "command-r" = @Omitted string)).
Proof.
  split; [reflexivity|].
  exact (from_any_wrapper_arguments ∅ COHERE "command-r" false None
           (mkHandle from_cohere
              (Client (mkRawClient cohere_Client Omitted Omitted))
              (Passed 0%Z) (Passed "command-r") COHERE_TOOLS) eq_refl).
Defined.

(** X10: the async flag changes the class of the transport and nothing
    else: the handles of two calls that differ in the flag only have the
    same wrapper, mode, [max_tokens], [model], base URL and key, the
    transport is handed over in the same way, and the two transport
    classes differ. *)
Theorem from_any_async_flag_only_class environ p model_name md h1 h2 :
  from_any environ p model_name true md = Return h1 →
  from_any environ p model_name false md = Return h2 →
  wrapper h1 = wrapper h2 ∧ mode h1 = mode h2 ∧
  max_tokens h1 = max_tokens h2 ∧ model h1 = model h2 ∧
  base_url (transport h1) = base_url (transport h2) ∧
  api_key (transport h1) = api_key (transport h2) ∧
  ((∃ c, client h1 = CreateChat c) ↔ (∃ c, client h2 = CreateChat c)) ∧
  transport_class (transport h1) ≠ transport_class (transport h2).
Proof.
  intros H1 H2.
  destruct (from_any_return_inv _ _ _ _ _ _ H1) as (k1 & m1 & Hk1 & -> & Hp).
  destruct (from_any_return_inv _ _ _ _ _ _ H2) as (k2 & m2 & Hk2 & -> & _).
  assert (k2 = k1) as -> by congruence.
  assert (m2 = m1) as ->.
  { revert H1 H2. unfold from_any. rewrite Hk1. cbn.
    destruct (match md with None => get_default_mode p | Some m => Return m end)
      as [m|e]; [|done]. cbn.
    unfold supported in Hp.
    repeat (apply elem_of_cons in Hp as [->|Hp]);
      try (by apply elem_of_nil in Hp); intros [= <-] [= <-]; reflexivity. }
  unfold supported in Hp.
  repeat (apply elem_of_cons in Hp as [->|Hp]);
    try (by apply elem_of_nil in Hp); cbn; repeat split; try done;
    try (intros [c Hc]; by exists (mkRawClient MistralClient Omitted Omitted));
    try (intros [c Hc]; by exists (mkRawClient MistralAsyncClient Omitted Omitted));
    by intros [c Hc].
Qed.

Lemma from_any_async_flag_only_class_witness :
  ∃ h1 h2,
    from_any ∅ MISTRAL "mistral-large" true None = Return h1 ∧
    from_any ∅ MISTRAL "mistral-large" false None = Return h2 ∧
    wrapper h1 = wrapper h2 ∧
    transport_class (transport h1) ≠ transport_class (transport h2).
Proof.
  eexists _, _. split; [reflexivity|]. split; [reflexivity|].
  pose proof (from_any_async_flag_only_class ∅ MISTRAL "mistral-large" None
                _ _ eq_refl eq_refl) as (Hw & _ & _ & _ & _ & _ & _ & Hc).
  split; [exact Hw|exact Hc].
Defined.

(** X11: the handles of OPENAI, MISTRAL and ANYSCALE, and of no other
    provider, are built by [instructor.from_openai]; the MISTRAL handle,
    and no other, receives the [chat] attribute of the transport as
    [create] instead of the transport itself. *)
Theorem from_any_wrapper_family environ p model_name async_client md h :
  from_any environ p model_name async_client md = Return h →
  (wrapper h = from_openai ↔ p ∈ [OPENAI; MISTRAL; ANYSCALE]) ∧
  ((∃ c, client h = CreateChat c) ↔ p = MISTRAL).
Proof.
  intros Hh.
  destruct (from_any_return_inv _ _ _ _ _ _ Hh) as (k & m & _ & -> & Hp).
  unfold supported in Hp.
  repeat (apply elem_of_cons in Hp as [->|Hp]);
    try (by apply elem_of_nil in Hp); cbn;
    (split; split;
     [ first [ intros _; by repeat constructor | discriminate ]
     | first [ reflexivity
             | intros Hin;
               repeat (apply elem_of_cons in Hin as [Hin|Hin]; [discriminate|]);
               by apply elem_of_nil in Hin ]
     | first [ intros [c Hc]; discriminate | reflexivity ]
     | first [ discriminate | intros _; by eexists ] ]).
Qed.

Lemma from_any_wrapper_family_witness :
  from_any ∅ MISTRAL "mistral-large" false None
  = Return (mkHandle from_openai
              (CreateChat (mkRawClient MistralClient Omitted Omitted))
              Omitted Omitted MISTRAL_TOOLS) ∧
  (from_openai = from_openai ↔ MISTRAL ∈ [OPENAI; MISTRAL; ANYSCALE]).
Proof.
  split; [reflexivity|].
  exact (proj1 (from_any_wrapper_family ∅ MISTRAL "mistral-large" false None
                  (mkHandle from_openai
                     (CreateChat (mkRawClient MistralClient Omitted Omitted))
                     Omitted Omitted MISTRAL_TOOLS) eq_refl)).
Defined.

(** X12: ANYSCALE is served through the OpenAI transport: with the same
    mode and async flag, the ANYSCALE handle and the OPENAI handle have
    the same wrapper, transport class, mode and wrapper arguments, and
    differ in the base URL and the key of the transport only. *)
Theorem from_any_anyscale_like_openai environ m1 m2 async_client md h1 h2 :
  from_any environ OPENAI m1 async_client (Some md) = Return h1 →
  from_any environ ANYSCALE m2 async_client (Some md) = Return h2 →
  wrapper h2 = wrapper h1 ∧
  transport_class (transport h2) = transport_class (transport h1) ∧
  mode h2 = mode h1 ∧ max_tokens h2 = max_tokens h1 ∧ model h2 = model h1 ∧
  base_url (transport h1) = Omitted ∧ api_key (transport h1) = Omitted ∧
  base_url (transport h2) = Passed anyscale_base_url ∧
  api_key (transport h2) = Passed (getenv environ "ANYSCALE_API_KEY").
Proof.
  unfold from_any.
  rewrite (get_api_key_recognized _ OPENAI _ eq_refl),
          (get_api_key_recognized _ ANYSCALE _ eq_refl). cbn.
  destruct async_client; intros [= <-] [= <-]; by repeat split.
Qed.

Lemma from_any_anyscale_like_openai_witness :
  ∃ h1 h2,
    from_any {[ "ANYSCALE_API_KEY" := "esecret" ]} OPENAI "gpt-4" false (Some JSON_SCHEMA)
    = Return h1 ∧
    from_any {[ "ANYSCALE_API_KEY" := "esecret" ]} ANYSCALE "llama-2" false (Some JSON_SCHEMA)
    = Return h2 ∧
    wrapper h2 = wrapper h1 ∧
    api_key (transport h2) = Passed (Some "esecret").
Proof.
  eexists _, _. split; [reflexivity|]. split; [reflexivity|].
  pose proof (from_any_anyscale_like_openai {[ "ANYSCALE_API_KEY" := "esecret" ]}
                "gpt-4" "llama-2" false JSON_SCHEMA _ _ eq_refl eq_refl)
    as (Hw & _ & _ & _ & _ & _ & _ & _ & Hk).
  split; [exact Hw|exact Hk].
Defined.

(** X13: every provider that [get_default_mode] knows is known to
    [get_api_key], in any environment; the converse fails for VOYAGE. *)
Theorem default_mode_implies_api_key environ p :
  (returns (get_default_mode p) → returns (get_api_key environ p)) ∧
  returns (get_api_key environ VOYAGE) ∧ ¬ returns (get_default_mode VOYAGE).
Proof.
  split; [|split].
  - intros [m Hm]. unfold get_default_mode in Hm.
    destruct (org_to_mode !! p) as [m'|] eqn:Hp; [|done].
    assert (Hs : p ∈ supported) by (apply org_to_mode_supported; by eexists).
    destruct (supported_credential_variable p Hs) as [v Hv].
    eexists. by apply get_api_key_recognized.
  - eexists. by apply get_api_key_recognized.
  - by intros [m Hm].
Qed.

Lemma default_mode_implies_api_key_witness :
  returns (get_default_mode GROQ) ∧ returns (get_api_key ∅ GROQ).
Proof.
  assert (H : returns (get_default_mode GROQ)) by (eexists; reflexivity).
  split; [exact H|].
  exact (proj1 (default_mode_implies_api_key ∅ GROQ) H).
Defined.

(** ** More on the chat URLs *)

Lemma get_chat_urls_mapped (model_mapping : gmap string ModelInfo) model_name info :
  model_mapping !! model_name = Some info →
  get_chat_urls model_mapping model_name = subscript model_to_chat_url (org info).
Proof.
  intros Hi. rewrite get_chat_urls_unfold, Hi. unfold subscript.
  by destruct (model_to_chat_url !! org info).
Qed.

Lemma model_to_chat_url_inj o1 o2 u :
  model_to_chat_url !! o1 = Some u → model_to_chat_url !! o2 = Some u → o1 = o2.
Proof.
  intros H1 H2.
  assert (Ho1 : o1 ∈ chat_url_orgs) by (apply model_to_chat_url_lookup; by eexists).
  assert (Ho2 : o2 ∈ chat_url_orgs) by (apply model_to_chat_url_lookup; by eexists).
  unfold chat_url_orgs in *.
  repeat (apply elem_of_cons in Ho1 as [->|Ho1]);
    try (by apply elem_of_nil in Ho1);
    repeat (apply elem_of_cons in Ho2 as [->|Ho2]);
    try (by apply elem_of_nil in Ho2);
    try reflexivity; vm_compute in H1, H2; congruence.
Qed.

(** X14: the result of [get_chat_urls] is a function of the model's
    organization: two model names, even of two mappings, whose entries
    have the same organization get the same URL or the same failure. *)
Theorem get_chat_urls_by_org (mapping1 mapping2 : gmap string ModelInfo)
    name1 name2 info1 info2 :
  mapping1 !! name1 = Some info1 →
  mapping2 !! name2 = Some info2 →
  org info1 = org info2 →
  get_chat_urls mapping1 name1 = get_chat_urls mapping2 name2.
Proof.
  intros H1 H2 Ho.
  by rewrite (get_chat_urls_mapped _ _ _ H1), (get_chat_urls_mapped _ _ _ H2), Ho.
Qed.

Lemma get_chat_urls_by_org_witness :
  get_chat_urls {[ "gpt-4" := mkModelInfo "openai" ]} "gpt-4"
  = get_chat_urls {[ "gpt-3.5-turbo" := mkModelInfo "openai" ]} "gpt-3.5-turbo".
Proof.
  exact (get_chat_urls_by_org {[ "gpt-4" := mkModelInfo "openai" ]}
           {[ "gpt-3.5-turbo" := mkModelInfo "openai" ]}
           "gpt-4" "gpt-3.5-turbo" (mkModelInfo "openai") (mkModelInfo "openai")
           eq_refl eq_refl eq_refl).
Defined.

(** X15: no two organizations share a URL: when [get_chat_urls] returns
    the same URL for two model names, their entries have the same
    organization. *)
Theorem get_chat_urls_url_determines_org (mapping1 mapping2 : gmap string ModelInfo)
    name1 name2 u :
  get_chat_urls mapping1 name1 = Return u →
  get_chat_urls mapping2 name2 = Return u →
  ∃ info1 info2, mapping1 !! name1 = Some info1 ∧
                 mapping2 !! name2 = Some info2 ∧
                 org info1 = org info2.
Proof.
  rewrite !get_chat_urls_unfold.
  destruct (mapping1 !! name1) as [info1|]; [|done].
  destruct (mapping2 !! name2) as [info2|]; [|done].
  destruct (model_to_chat_url !! org info1) as [u1|] eqn:H1; [|done].
  destruct (model_to_chat_url !! org info2) as [u2|] eqn:H2; [|done].
  intros [= ->] [= ->]. exists info1, info2. repeat split.
  by eapply model_to_chat_url_inj.
Qed.

Lemma get_chat_urls_url_determines_org_witness :
  ∃ info1 info2,
    ({[ "claude-3" := mkModelInfo "anthropic" ]} : gmap string ModelInfo) !! "claude-3"
    = Some info1 ∧
    ({[ "claude-2" := mkModelInfo "anthropic" ]} : gmap string ModelInfo) !! "claude-2"
    = Some info2 ∧
    org info1 = org info2.
Proof.
  exact (get_chat_urls_url_determines_org
           {[ "claude-3" := mkModelInfo "anthropic" ]}
           {[ "claude-2" := mkModelInfo "anthropic" ]}
           "claude-3" "claude-2" "https://api.anthropic.com/v1/messages"
           eq_refl eq_refl).
Defined.

(** X16: registering a model in [model_mapping] under an organization
    that has a URL makes [get_chat_urls] return for that name, removing
    a name makes it fail with a key error on the name, and neither
    changes the result for any other name. *)
Theorem get_chat_urls_register (model_mapping : gmap string ModelInfo)
    name info other :
  org info ∈ chat_url_orgs →
  other ≠ name →
  returns (get_chat_urls (<[name:=info]> model_mapping) name) ∧
  get_chat_urls (delete name model_mapping) name = Raise (MissingKey name) ∧
  get_chat_urls (<[name:=info]> model_mapping) other
  = get_chat_urls model_mapping other ∧
  get_chat_urls (delete name model_mapping) other
  = get_chat_urls model_mapping other.
Proof.
  intros Ho Hne. rewrite !get_chat_urls_unfold.
  rewrite lookup_insert_eq, lookup_delete_eq,
    lookup_insert_ne, lookup_delete_ne by done.
  repeat split.
  apply model_to_chat_url_lookup in Ho as [u ->]. by exists u.
Qed.

Lemma get_chat_urls_register_witness :
  "cohere" ∈ chat_url_orgs ∧
  "gpt-4" ≠ "command-r" ∧
  returns (get_chat_urls (<["command-r":=mkModelInfo "cohere"]> ∅) "command-r").
Proof.
  assert (H1 : "cohere" ∈ chat_url_orgs) by (unfold chat_url_orgs; repeat constructor).
  assert (H2 : "gpt-4" ≠ "command-r") by discriminate.
  split; [exact H1|]. split; [exact H2|].
  exact (proj1 (get_chat_urls_register ∅ "command-r" (mkModelInfo "cohere")
                  "gpt-4" H1 H2)).
Defined.

(** X17: the URL that [get_chat_urls] returns for a model of the
    organization anyscale is the chat-completions path under the base
    URL that [from_any] passes to the ANYSCALE transport. *)
Theorem anyscale_urls_agree environ (model_mapping : gmap string ModelInfo)
    model_name info async_client md h b :
  model_mapping !! model_name = Some info →
  org info = "anyscale" →
  from_any environ ANYSCALE model_name async_client md = Return h →
  base_url (transport h) = Passed b →
  get_chat_urls model_mapping model_name = Return (b +:+ "/chat/completions").
Proof.
  intros Hi Ho Hh Hb.
  rewrite (get_chat_urls_mapped _ _ _ Hi), Ho.
  destruct (from_any_return_inv _ _ _ _ _ _ Hh) as (k & m & _ & -> & _).
  destruct async_client; cbn in Hb; by injection Hb as <-.
Qed.

Lemma anyscale_urls_agree_witness :
  get_chat_urls {[ "llama-2" := mkModelInfo "anyscale" ]} "llama-2"
  = Return ("https://api.endpoints.anyscale.com/v1" +:+ "/chat/completions").
Proof.
  exact (anyscale_urls_agree ∅ {[ "llama-2" := mkModelInfo "anyscale" ]}
           "llama-2" (mkModelInfo "anyscale") false None
           (mkHandle from_openai
              (Client (mkRawClient OpenAI (Passed anyscale_base_url) (Passed None)))
              Omitted Omitted JSON_SCHEMA)
           "https://api.endpoints.anyscale.com/v1"
           eq_refl eq_refl eq_refl eq_refl).
Defined.

(** ** The prompt batch *)

Lemma append_dot_inj s1 s2 : s1 +:+ "." = s2 +:+ "." → s1 = s2.
Proof.
  revert s2. induction s1 as [|a1 s1 IH]; intros [|a2 s2] H.
  - reflexivity.
  - change ("." = String a2 (s2 +:+ ".")) in H. injection H as _ H.
    destruct s2; discriminate H.
  - change (String a1 (s1 +:+ ".") = ".") in H. injection H as _ H.
    destruct s1; discriminate H.
  - change (String a1 (s1 +:+ ".") = String a2 (s2 +:+ ".")) in H.
    injection H as -> H. by rewrite (IH _ H).
Qed.

Lemma user_content_inj i j :
  Pipeline.user_content i = Pipeline.user_content j → i = j.
Proof.
  unfold Pipeline.user_content. intros H.
  apply (inj (String.append _)) in H. apply append_dot_inj in H.
  apply (inj pretty) in H. lia.
Qed.

Lemma user_question_prompt i :
  Pipeline.user_question (Pipeline.prompt i) = Some (Pipeline.user_content i).
Proof. reflexivity. Qed.

Lemma prompt_id_prompt i : Pipeline.prompt_id (Pipeline.prompt i) = Some i.
Proof. unfold Pipeline.prompt_id. cbn. apply lookup_singleton_eq. Qed.

(** X18: the batch has one prompt per index below [num_prompts], and
    none when [num_prompts] is not positive; the prompt at position [i]
    has the prompt id [i] and asks about the number [i + 1]. *)
Theorem create_chat_prompts_lookup (num_prompts : Z) (i : nat) :
  length (Pipeline.create_chat_prompts num_prompts) = Z.to_nat num_prompts ∧
  (Pipeline.create_chat_prompts num_prompts !! i = None ↔
   (num_prompts ≤ Z.of_nat i)%Z) ∧
  (∀ p, Pipeline.create_chat_prompts num_prompts !! i = Some p →
        Pipeline.prompt_id p = Some (Z.of_nat i) ∧
        Pipeline.user_question p
        = Some ("Tell me an interesting fact about the number "
                  +:+ pretty (Z.of_nat i + 1)%Z +:+ ".")).
Proof.
  unfold Pipeline.create_chat_prompts. split; [|split].
  - by rewrite length_fmap, length_seqZ.
  - rewrite lookup_ge_None, length_fmap, length_seqZ. lia.
  - intros p. rewrite list_lookup_fmap.
    destruct (seqZ 0 num_prompts !! i) as [j|] eqn:Hj; [|done].
    apply lookup_seqZ in Hj as [-> _]. intros [= <-].
    rewrite prompt_id_prompt, user_question_prompt. split; [done|].
    unfold Pipeline.user_content. by rewrite Z.add_0_l.
Qed.

Lemma create_chat_prompts_lookup_witness :
  Pipeline.create_chat_prompts 3 !! 2%nat = Some (Pipeline.prompt 2) ∧
  Pipeline.prompt_id (Pipeline.prompt 2) = Some 2%Z ∧
  Pipeline.user_question (Pipeline.prompt 2)
  = Some "Tell me an interesting fact about the number 3.".
Proof.
  split; [reflexivity|].
  exact (proj2 (proj2 (create_chat_prompts_lookup 3 2)) (Pipeline.prompt 2) eq_refl).
Defined.

(** X19: the prompt ids of a batch are the integers from 0 up to
    [num_prompts - 1], in this order, each once. *)
Theorem create_chat_prompts_ids (num_prompts : Z) :
  Pipeline.prompt_id <$> Pipeline.create_chat_prompts num_prompts
  = Some <$> seqZ 0 num_prompts ∧
  NoDup (Pipeline.prompt_id <$> Pipeline.create_chat_prompts num_prompts).
Proof.
  assert (H : Pipeline.prompt_id <$> Pipeline.create_chat_prompts num_prompts
              = Some <$> seqZ 0 num_prompts).
  { unfold Pipeline.create_chat_prompts. rewrite <-list_fmap_compose.
    apply list_fmap_ext. intros _ j _. cbn. apply prompt_id_prompt. }
  split; [exact H|]. rewrite H.
  apply (NoDup_fmap_2 _), NoDup_seqZ.
Qed.

(** X20: no two prompts of a batch ask the same question. *)
Theorem create_chat_prompts_questions_distinct (num_prompts : Z) :
  NoDup (Pipeline.user_question <$> Pipeline.create_chat_prompts num_prompts).
Proof.
  unfold Pipeline.create_chat_prompts. rewrite <-list_fmap_compose.
  apply NoDup_fmap_2_strong; [|apply NoDup_seqZ].
  intros i j _ _ H.
  change (Some (Pipeline.user_content i) = Some (Pipeline.user_content j)) in H.
  apply user_content_inj. congruence.
Qed.

(** X21: a larger batch extends a smaller one: the prompts of the
    smaller batch are the first prompts of the larger, unchanged. *)
Theorem create_chat_prompts_prefix (n m : Z) :
  (n ≤ m)%Z →
  Pipeline.create_chat_prompts n `prefix_of` Pipeline.create_chat_prompts m.
Proof.
  intros Hnm. unfold Pipeline.create_chat_prompts.
  destruct (decide (n ≤ 0)%Z) as [Hn|Hn].
  - rewrite (seqZ_nil 0 n) by done. apply prefix_nil.
  - replace m with (n + (m - n))%Z by lia.
    rewrite seqZ_app, fmap_app by lia. by apply prefix_app_r.
Qed.

Lemma create_chat_prompts_prefix_witness :
  (2 ≤ 5)%Z ∧
  Pipeline.create_chat_prompts 2 `prefix_of` Pipeline.create_chat_prompts 5.
Proof.
  assert (H : (2 ≤ 5)%Z) by (intros Hc; discriminate Hc).
  split; [exact H|].
  exact (create_chat_prompts_prefix 2 5 H).
Defined.

(** X22: within a batch the prompt id identifies the prompt: two
    prompts of the batch with the same id are the same prompt. *)
Theorem create_chat_prompts_id_key (num_prompts : Z) p q :
  p ∈ Pipeline.create_chat_prompts num_prompts →
  q ∈ Pipeline.create_chat_prompts num_prompts →
  Pipeline.prompt_id p = Pipeline.prompt_id q →
  p = q.
Proof.
  unfold Pipeline.create_chat_prompts.
  intros (i & -> & _)%list_elem_of_fmap (j & -> & _)%list_elem_of_fmap.
  rewrite !prompt_id_prompt. by intros [= ->].
Qed.

Lemma create_chat_prompts_id_key_witness :
  Pipeline.prompt 1 ∈ Pipeline.create_chat_prompts 2 ∧
  Pipeline.prompt 1 = Pipeline.prompt 1.
Proof.
  assert (H : Pipeline.prompt 1 ∈ Pipeline.create_chat_prompts 2).
  { change (Pipeline.create_chat_prompts 2)
      with [Pipeline.prompt 0; Pipeline.prompt 1]. repeat constructor. }
  split; [exact H|].
  exact (create_chat_prompts_id_key 2 (Pipeline.prompt 1) (Pipeline.prompt 1)
           H H eq_refl).
Defined.
